(** * Tic-Tac-Toe: the board queries and the minimax engine of [script.js]

    The repository holds the same engine twice: the console program
    [script.js], whose marks are the strings 'O' (computer, maximizer) and
    'X' (human, minimizer), and the browser program, whose marks are two
    emoji.  Apart from the two mark strings the functions [checkWinner],
    [isBoardFull], [getAvailableMoves], [minimax] and [makeComputerMove]
    are the same text.  The embedding below therefore takes the two marks
    as section variables and is instantiated once per program.

    How the JavaScript is read:
    - the board is the one array the program creates, three rows of three
      strings; the functions receive it by reference and assign to its
      cells, so every function that writes returns the board it leaves and
      the next statement goes on from that board;
    - a cell may hold any string, the empty string being the empty cell;
    - [depth] and the scores are integers ([Z]); the search loops start
      from one of the two infinities, which are kept apart from the
      integers in the type [number];
    - an assignment through a row that does not exist raises a
      [TypeError], which ends the call;
    - [minimax] is recursive on a board that gets fuller with every call;
      it is written with a bound on the nesting of calls, and lemma
      [minimax_done] shows that the bound of ten is never reached. *)

From Stdlib Require Import ZArith List String Bool Lia Sorted.
Import ListNotations.

Local Open Scope Z_scope.

(** ** Data model *)

(** A cell holds a JavaScript string; the empty string is the empty cell. *)
Definition EMPTY : string := EmptyString.

(** [let board = [['','',''],['','',''],['','','']]]: three rows of three
    cells.  The programs only ever assign to cells of this array, so its
    shape is fixed. *)
Record row := Row { c0 : string; c1 : string; c2 : string }.
Record board := Board { r0 : row; r1 : row; r2 : row }.

Definition emptyBoard : board :=
  Board (Row EMPTY EMPTY EMPTY) (Row EMPTY EMPTY EMPTY) (Row EMPTY EMPTY EMPTY).

(** A move is the object [{ i, j }] pushed by [getAvailableMoves]; the
    fields are JavaScript numbers, and [makeComputerMove] starts from
    [{ i: -1, j: -1 }]. *)
Record move := Move { i : Z; j : Z }.

Definition sentinel : move := Move (-1) (-1).

(** What a call can end in: a value, the [TypeError] JavaScript raises on
    [undefined[k] = v], or an exhausted recursion budget (used only to
    make the recursion of [minimax] structural). *)
Inductive outcome (A : Type) : Type :=
| Done (a : A)
| TypeError
| OutOfFuel.
Arguments Done {A} a.
Arguments TypeError {A}.
Arguments OutOfFuel {A}.

Definition bind {A B : Type} (m : outcome A) (k : A -> outcome B) : outcome B :=
  match m with
  | Done a => k a
  | TypeError => TypeError
  | OutOfFuel => OutOfFuel
  end.

Notation "x <- m ;; k" := (bind m (fun x => k))
  (at level 61, m at next level, right associativity).
Notation "' pat <- m ;; k" := (bind m (fun x => match x with pat => k end))
  (at level 61, pat pattern, m at next level, right associativity).

(** Scores are JavaScript numbers: integers together with the two
    infinities the search loops start from. *)
Inductive number := NegInfinity | Num (z : Z) | Infinity.

Definition number_leb (a b : number) : bool :=
  match a, b with
  | NegInfinity, _ => true
  | _, Infinity => true
  | Num x, Num y => x <=? y
  | _, _ => false
  end.

(** [a > b] *)
Definition number_gtb (a b : number) : bool := negb (number_leb a b).

(** [Math.max(a, b)] and [Math.min(a, b)] *)
Definition Math_max (a b : number) : number := if number_leb a b then b else a.
Definition Math_min (a b : number) : number := if number_leb a b then a else b.

(** ** Reading and writing cells *)

(** [board[i]]: [None] stands for [undefined]. *)
Definition rowAt (b : board) (i : Z) : option row :=
  match i with
  | 0 => Some (r0 b)
  | 1 => Some (r1 b)
  | 2 => Some (r2 b)
  | _ => None
  end.

Definition colAt (r : row) (j : Z) : option string :=
  match j with
  | 0 => Some (c0 r)
  | 1 => Some (c1 r)
  | 2 => Some (c2 r)
  | _ => None
  end.

(** [board[i][j]] as read by the loops below, which only use indices
    0, 1 and 2; [None] is never produced there. *)
Definition cellAt (b : board) (i j : Z) : option string :=
  match rowAt b i with
  | Some r => colAt r j
  | None => None
  end.

(** [board[i][j] == s] and [board[i][j] === s] for a string [s]: on two
    strings both operators compare the contents. *)
Definition cellIs (b : board) (i j : Z) (s : string) : bool :=
  match cellAt b i j with
  | Some c => String.eqb c s
  | None => false
  end.

Definition setCol (r : row) (j : Z) (v : string) : row :=
  match j with
  | 0 => Row v (c1 r) (c2 r)
  | 1 => Row (c0 r) v (c2 r)
  | 2 => Row (c0 r) (c1 r) v
  | _ => r
  end.

(** The board after [board[i][j] = v], when the row exists. *)
Definition update (b : board) (i j : Z) (v : string) : board :=
  match i with
  | 0 => Board (setCol (r0 b) j v) (r1 b) (r2 b)
  | 1 => Board (r0 b) (setCol (r1 b) j v) (r2 b)
  | 2 => Board (r0 b) (r1 b) (setCol (r2 b) j v)
  | _ => b
  end.

(** The board with [mark] written at the cell of [m]. *)
Definition place (b : board) (m : move) (mark : string) : board :=
  update b (i m) (j m) mark.

(** The statement [board[i][j] = v].  When [board[i]] is [undefined] the
    assignment raises a [TypeError]; this is what happens at the sentinel
    move.  (A column outside 0..2 on an existing row would add a property
    to that row and leave the nine cells as they are; no move the
    programs build has such a column.) *)
Definition setCell (b : board) (i j : Z) (v : string) : outcome board :=
  match rowAt b i with
  | Some _ => Done (update b i j v)
  | None => TypeError
  end.

(** ** Loops *)

(** [for (let i = 0; i < 3; i++)] *)
Definition indices : list Z := [0; 1; 2].

(** A [for] loop whose body may [return]: [Some r] is the value returned
    from inside the loop, [None] means the loop ran to its end. *)
Fixpoint for_return {A R : Type} (xs : list A) (body : A -> option R) : option R :=
  match xs with
  | [] => None
  | x :: rest =>
      match body x with
      | Some r => Some r
      | None => for_return rest body
      end
  end.

(** ** Board queries *)

(** [checkWinner(board, player)] *)
Definition checkWinner (b : board) (player : string) : bool :=
  match
    for_return indices (fun i =>
      if (cellIs b i 0 player && cellIs b i 1 player && cellIs b i 2 player)
         || (cellIs b 0 i player && cellIs b 1 i player && cellIs b 2 i player)
      then Some true
      else None)
  with
  | Some r => r
  | None =>
      if (cellIs b 0 0 player && cellIs b 1 1 player && cellIs b 2 2 player)
         || (cellIs b 0 2 player && cellIs b 1 1 player && cellIs b 2 0 player)
      then true
      else false
  end.

(** [isBoardFull(board)] *)
Definition isBoardFull (b : board) : bool :=
  match
    for_return indices (fun i =>
      for_return indices (fun j =>
        if cellIs b i j EMPTY then Some false else None))
  with
  | Some r => r
  | None => true
  end.

(** [getAvailableMoves(board)]: [moves.push({ i, j })] appends at the end. *)
Definition getAvailableMoves (b : board) : list move :=
  fold_left (fun moves i =>
    fold_left (fun moves j =>
      if cellIs b i j EMPTY then moves ++ [Move i j] else moves)
      indices moves)
    indices [].

(** ** The minimax engine *)

(** The body shared by the two search loops of [minimax]:
    [for (let move of moves) { board[move.i][move.j] = mark;
      let score = minimax(board, depth + 1, ...); board[move.i][move.j] = '';
      bestScore = best(score, bestScore); }]
    The board is one shared array: each statement acts on the board the
    previous one left, and the recursive call hands its board back. *)
Fixpoint explore (mark : string) (best : number -> number -> number)
    (recur : board -> outcome (number * board))
    (moves : list move) (b : board) (bestScore : number)
  : outcome (number * board) :=
  match moves with
  | [] => Done (bestScore, b)
  | move :: rest =>
      b1 <- setCell b (i move) (j move) mark ;;
      '(score, b2) <- recur b1 ;;
      b3 <- setCell b2 (i move) (j move) EMPTY ;;
      explore mark best recur rest b3 (best score bestScore)
  end.

(** The loop of [makeComputerMove], which also tracks the move:
    [if (score > bestScore) { bestScore = score; bestMove = move; }] *)
Fixpoint choose (mark : string)
    (recur : board -> outcome (number * board))
    (moves : list move) (b : board) (bestMove : move) (bestScore : number)
  : outcome (move * number * board) :=
  match moves with
  | [] => Done (bestMove, bestScore, b)
  | move :: rest =>
      b1 <- setCell b (i move) (j move) mark ;;
      '(score, b2) <- recur b1 ;;
      b3 <- setCell b2 (i move) (j move) EMPTY ;;
      if number_gtb score bestScore
      then choose mark recur rest b3 move score
      else choose mark recur rest b3 bestMove bestScore
  end.

(** The integer a finished call returned (0 when there is none). *)
Definition valueOf (o : outcome (number * board)) : Z :=
  match o with
  | Done (Num z, _) => z
  | _ => 0
  end.

Section Engine.

(** The computer's mark (the maximizer) and the human's (the minimizer). *)
Variables maxMark minMark : string.

(** The body of [minimax(board, depth, isMaximizing)], with [recur] for
    the function's calls to itself.  It returns the score together with
    the board as the call leaves it. *)
Definition minimax_body (recur : board -> Z -> bool -> outcome (number * board))
    (b : board) (depth : Z) (isMaximizing : bool)
  : outcome (number * board) :=
  if checkWinner b maxMark then Done (Num (10 - depth), b)
  else if checkWinner b minMark then Done (Num (depth - 10), b)
  else if isBoardFull b then Done (Num 0, b)
  else if isMaximizing then
    explore maxMark (fun score bestScore => Math_max score bestScore)
      (fun b' => recur b' (depth + 1) false)
      (getAvailableMoves b) b NegInfinity
  else
    explore minMark (fun score bestScore => Math_min score bestScore)
      (fun b' => recur b' (depth + 1) true)
      (getAvailableMoves b) b Infinity.

(** [minimax] itself; [fuel] bounds the nesting of recursive calls. *)
Fixpoint minimax_fuel (fuel : nat) (b : board) (depth : Z) (isMaximizing : bool)
  : outcome (number * board) :=
  match fuel with
  | O => OutOfFuel
  | S fuel' => minimax_body (minimax_fuel fuel') b depth isMaximizing
  end.

(** Every call below a non-terminal board fills one more of at most nine
    empty cells, so ten nested calls are never exceeded
    (lemma [minimax_fuel_enough]). *)
Definition searchFuel : nat := 10.

Definition minimax (b : board) (depth : Z) (isMaximizing : bool)
  : outcome (number * board) :=
  minimax_fuel searchFuel b depth isMaximizing.

(** The selection part of [makeComputerMove]: the values of [bestMove] and
    [bestScore] and the board when the loop is over. *)
Definition selectMove (b : board) : outcome (move * number * board) :=
  choose maxMark (fun b' => minimax b' 0 false)
    (getAvailableMoves b) b sentinel NegInfinity.

(** [makeComputerMove(board)]: the function returns nothing; its result
    is the board it leaves. *)
Definition makeComputerMove (b : board) : outcome board :=
  '(bestMove, _, b') <- selectMove b ;;
  setCell b' (i bestMove) (j bestMove) maxMark.

(** The move [makeComputerMove] has selected when it reaches its last
    statement (the specification's [bestMove]). *)
Definition bestMove (b : board) : outcome move :=
  '(bestMove, _, _) <- selectMove b ;;
  Done bestMove.

(** The integer [minimax] returns. *)
Definition value (b : board) (d : Z) (r : bool) : Z :=
  valueOf (minimax b d r).

(** The score [makeComputerMove] computes for a move: the value of
    [minimax(board, 0, false)] on the board with the computer's mark on it. *)
Definition moveScore (b : board) (m : move) : Z :=
  value (place b m maxMark) 0 false.

End Engine.

(** The two programs. *)
Module Console.
Definition computer : string := "O".
Definition human : string := "X".
Definition minimax := minimax computer human.
Definition makeComputerMove := makeComputerMove computer human.
Definition bestMove := bestMove computer human.
End Console.

Module Browser.
Definition computer : string := "🚀".
Definition human : string := "🌟".
Definition minimax := minimax computer human.
Definition makeComputerMove := makeComputerMove computer human.
Definition bestMove := bestMove computer human.
End Browser.

(** ** Vocabulary of the specification *)

(** The nine coordinates in row-major order. *)
Definition allCells : list move :=
  flat_map (fun r => map (Move r) indices) indices.

(** The eight lines: three rows, three columns, two diagonals. *)
Definition lines : list (list (Z * Z)) :=
  [ [(0, 0); (0, 1); (0, 2)];
    [(1, 0); (1, 1); (1, 2)];
    [(2, 0); (2, 1); (2, 2)];
    [(0, 0); (1, 0); (2, 0)];
    [(0, 1); (1, 1); (2, 1)];
    [(0, 2); (1, 2); (2, 2)];
    [(0, 0); (1, 1); (2, 2)];
    [(0, 2); (1, 1); (2, 0)] ].

(** All cells of a line carry the mark [player]. *)
Definition markedBy (b : board) (player : string) (line : list (Z * Z)) : Prop :=
  Forall (fun rc => cellAt b (fst rc) (snd rc) = Some player) line.

Definition markedByb (b : board) (player : string) (line : list (Z * Z)) : bool :=
  forallb (fun rc => cellIs b (fst rc) (snd rc) player) line.

(** The cell a move names is inside the grid and empty. *)
Definition emptyAt (b : board) (m : move) : Prop :=
  cellAt b (i m) (j m) = Some EMPTY.

Definition emptyAtb (b : board) (m : move) : bool :=
  cellIs b (i m) (j m) EMPTY.

Definition inGrid (m : move) : Prop :=
  0 <= i m <= 2 /\ 0 <= j m <= 2.

(** Row-major order on coordinates: lower row first, then lower column. *)
Definition rowMajor_lt (m1 m2 : move) : Prop :=
  i m1 < i m2 \/ (i m1 = i m2 /\ j m1 < j m2).

Definition emptyCount (b : board) : nat :=
  List.length (getAvailableMoves b).

(** [recur] answers on every board one mark fuller than [b], with an
    integer score and the board unchanged. *)
Definition answers_below (recur : board -> Z -> bool -> outcome (number * board))
    (b : board) : Prop :=
  forall m mark d r, emptyAt b m -> mark <> EMPTY ->
    recur (place b m mark) d r
    = Done (Num (valueOf (recur (place b m mark) d r)), place b m mark).

(** The selection made by the loop of [makeComputerMove], as a fold. *)
Definition pick (score : move -> number) (moves : list move)
    (start : move * number) : move * number :=
  fold_left (fun best m =>
               if number_gtb (score m) (snd best) then (m, score m) else best)
            moves start.

(** ** Positions of the game *)

Section Positions.

Variables maxMark minMark : string.

(** Nobody has a line and a cell is free: [minimax] goes on searching. *)
Definition nonTerminal (b : board) : bool :=
  negb (checkWinner b maxMark) && negb (checkWinner b minMark)
  && negb (isBoardFull b).

(** Some legal move of the maximizer completes a line at once. *)
Definition winsNow (b : board) : bool :=
  existsb (fun m => checkWinner (place b m maxMark) maxMark) (getAvailableMoves b).

(** The maximizer, to move, can win with its next mark. *)
Definition winIn1 (b : board) : bool :=
  nonTerminal b && winsNow b.

(** The maximizer, to move, cannot win with its next mark, but has a move
    after which the game goes on and every reply of the minimizer leaves a
    board where the maximizer wins with its next mark: a win forced in
    three moves and not sooner. *)
Definition winIn3 (b : board) : bool :=
  nonTerminal b && negb (winsNow b)
  && existsb (fun m =>
       let b1 := place b m maxMark in
       nonTerminal b1
       && forallb (fun m' => winIn1 (place b1 m' minMark)) (getAvailableMoves b1))
     (getAvailableMoves b).

End Positions.

(** A depth is consistent with a board when the marks still to come do
    not take the depth beyond nine. *)
Definition depthFits (b : board) (d : Z) : Prop :=
  d + Z.of_nat (emptyCount b) <= 9.

(** The calls of [minimax] the programs make: [makeComputerMove] calls it
    at depth 0, minimizer to move, on the board with the computer's mark
    written on an empty cell; a call on a board that is not terminal
    calls it one level deeper, for the other role, on the board with the
    mover's mark written on an empty cell. *)
Inductive searchCall (maxMark minMark : string) : board -> Z -> bool -> Prop :=
| call_from_makeComputerMove (b : board) (m : move) :
    emptyAt b m ->
    searchCall maxMark minMark (place b m maxMark) 0 false
| call_from_minimax (b : board) (depth : Z) (isMaximizing : bool) (m : move) :
    searchCall maxMark minMark b depth isMaximizing ->
    nonTerminal maxMark minMark b = true ->
    emptyAt b m ->
    searchCall maxMark minMark
      (place b m (if isMaximizing then maxMark else minMark))
      (depth + 1) (negb isMaximizing).

(** ** Boards used in the examples *)

(** Both players hold a line: rows 0 and 1. *)
Definition bothLines : board :=
  Board (Row "O" "O" "O") (Row "X" "X" "X") (Row EMPTY EMPTY EMPTY).

(** The computer can complete row 0. *)
Definition rowOpen : board :=
  Board (Row "O" "O" EMPTY) (Row "X" "X" EMPTY) (Row "X" EMPTY EMPTY).

(** The computer completes column 2 with its next mark. *)
Definition fastWin : board :=
  Board (Row EMPTY EMPTY "O") (Row "X" EMPTY EMPTY) (Row "X" "X" "O").

(** The computer must first answer the threat on row 2 at (2,0); that
    mark opens column 0 and the anti-diagonal at once, and the computer
    wins two moves later. *)
Definition slowWin : board :=
  Board (Row EMPTY EMPTY "O") (Row "O" EMPTY "X") (Row EMPTY "X" "X").

(** A full board without a line. *)
Definition drawnBoard : board :=
  Board (Row "O" "X" "O") (Row "X" "X" "O") (Row "X" "O" "X").

(** ** The console game of [script.js] *)

(** What [parseInt] returns: a number or [NaN]. *)
Inductive numberOrNaN := NaN | IsNum (n : number).

(** [a < b] and [a > b] on such values: any comparison with [NaN] is
    false. *)
Definition js_gtb (a b : numberOrNaN) : bool :=
  match a, b with
  | IsNum x, IsNum y => number_gtb x y
  | _, _ => false
  end.

Definition js_ltb (a b : numberOrNaN) : bool := js_gtb b a.

(** [getPositionIndices(position)]:
    [row = Math.floor((position - 1) / 3)], [col = (position - 1) % 3].
    On an integer the floor of the quotient is [Z.div] and JavaScript's
    remainder, which takes the sign of the dividend, is [Z.rem]; an
    infinite position gives an infinite row and the column [NaN]; [NaN]
    gives [NaN] twice.  The pair stands for the object [{ row, col }]. *)
Definition getPositionIndices (position : numberOrNaN) : numberOrNaN * numberOrNaN :=
  match position with
  | IsNum (Num p) => (IsNum (Num ((p - 1) / 3)), IsNum (Num (Z.rem (p - 1) 3)))
  | IsNum Infinity => (IsNum Infinity, NaN)
  | IsNum NegInfinity => (IsNum NegInfinity, NaN)
  | NaN => (NaN, NaN)
  end.

(** The array index a number names, if any: [board[NaN]] and
    [board[Infinity]] are [undefined]. *)
Definition indexKey (n : numberOrNaN) : option Z :=
  match n with
  | IsNum (Num z) => Some z
  | _ => None
  end.

(** The expression [board[row][col]]: a [TypeError] when [board[row]] is
    [undefined], else the cell or [undefined] ([None]). *)
Definition readCell (b : board) (r c : numberOrNaN) : outcome (option string) :=
  match indexKey r with
  | Some ri =>
      match rowAt b ri with
      | Some rw =>
          Done (match indexKey c with
                | Some ci => colAt rw ci
                | None => None
                end)
      | None => TypeError
      end
  | None => TypeError
  end.

(** The statement [board[row][col] = v] for such indices. *)
Definition writeCell (b : board) (r c : numberOrNaN) (v : string) : outcome board :=
  match indexKey r with
  | Some ri =>
      match indexKey c with
      | Some ci => setCell b ri ci v
      | None => match rowAt b ri with Some _ => Done b | None => TypeError end
      end
  | None => TypeError
  end.

(** What the program does to the terminal: [console.log(line)],
    [read.question(query, ...)] and [read.close()]. *)
Inductive event :=
| Print (line : string)
| Ask (query : string)
| CloseInput.

(** A computation that writes to the terminal and may end in a value or
    in an exception; what was written before an exception stays written. *)
Definition io (A : Type) : Type := (list event * outcome A)%type.

Definition io_ret {A : Type} (a : A) : io A := ([], Done a).

Definition io_bind {A B : Type} (m : io A) (k : A -> io B) : io B :=
  match snd m with
  | Done a => let rest := k a in (fst m ++ fst rest, snd rest)
  | TypeError => (fst m, TypeError)
  | OutOfFuel => (fst m, OutOfFuel)
  end.

Definition emit (e : event) : io unit := ([e], Done tt).

Definition lift {A : Type} (o : outcome A) : io A := ([], o).

Notation "x <~ m ;; k" := (io_bind m (fun x => k))
  (at level 61, m at next level, right associativity).
Notation "m ;;; k" := (io_bind m (fun _ => k))
  (at level 61, right associativity).

(** [row.join(' | ')] *)
Definition joinRow (r : row) : string :=
  (c0 r ++ " | " ++ c1 r ++ " | " ++ c2 r)%string.

(** [printBoard(board)] *)
Definition printBoard (b : board) : io unit :=
  emit (Print (joinRow (r0 b))) ;;;
  emit (Print (joinRow (r1 b))) ;;;
  emit (Print (joinRow (r2 b))).

(** How a run of [playGame] over the answers given so far stands: the
    input was closed, or the program waits for the next answer. *)
Inductive ending := Closed | Waiting.

(** The callback [position => { ... }] that [playGame] hands to
    [read.question], with [again] for its calls of [playGame()]. *)
Definition onAnswer (again : board -> io (board * ending))
    (b : board) (position : numberOrNaN) : io (board * ending) :=
  if js_ltb position (IsNum (Num 1)) || js_gtb position (IsNum (Num 9)) then
    emit (Print "Invalid position, please enter a number between 1 and 9.") ;;;
    again b
  else
    let '(r, c) := getPositionIndices position in
    cell <~ lift (readCell b r c) ;;
    match cell with
    | Some EmptyString =>
        b1 <~ lift (writeCell b r c "X") ;;
        if checkWinner b1 "X" then
          emit (Print "Player wins!") ;;; emit CloseInput ;;; io_ret (b1, Closed)
        else if isBoardFull b1 then
          emit (Print "It's a tie!") ;;; emit CloseInput ;;; io_ret (b1, Closed)
        else
          b2 <~ lift (Console.makeComputerMove b1) ;;
          if checkWinner b2 "O" then
            emit (Print "Computer wins!") ;;; emit CloseInput ;;; io_ret (b2, Closed)
          else if isBoardFull b2 then
            emit (Print "It's a tie!") ;;; emit CloseInput ;;; io_ret (b2, Closed)
          else again b2
    | _ =>
        emit (Print "Invalid move, try again.") ;;;
        again b
    end.

(** [playGame()], run on the answers the user gives to the successive
    questions (each already through [parseInt]); with no answer left the
    program waits at its prompt. *)
Fixpoint playGame (answers : list numberOrNaN) (b : board) : io (board * ending) :=
  printBoard b ;;;
  emit (Ask "Enter position (1-9): ") ;;;
  match answers with
  | [] => io_ret (b, Waiting)
  | position :: rest => onAnswer (playGame rest) b position
  end.

(** *** Vocabulary for the game *)

(** The terminal never showed the line that declares the human the
    winner. *)
Definition neverPlayerWins (log : list event) : bool :=
  forallb (fun e => match e with
                    | Print line => negb (String.eqb line "Player wins!")
                    | _ => true
                    end) log.

Definition board_eqb (b b' : board) : bool :=
  forallb (fun m => match cellAt b (i m) (j m), cellAt b' (i m) (j m) with
                    | Some x, Some y => String.eqb x y
                    | _, _ => false
                    end) allCells.

Definition positions : list Z := [1; 2; 3; 4; 5; 6; 7; 8; 9].

(** One answer, without going on to the next question. *)
Definition oneAnswer (b : board) (position : numberOrNaN) : io (board * ending) :=
  onAnswer (fun b' => io_ret (b', Waiting)) b position.

(** Exploration of every game the human can play from [b] with answers
    1 to 9: no answer throws, no line declares the human the winner, and
    the same holds from every board the game goes on with. *)
Fixpoint unbeatenFrom (fuel : nat) (b : board) : bool :=
  match fuel with
  | O => false
  | S fuel' =>
      neverPlayerWins (fst (printBoard b))
      && forallb (fun p =>
           match oneAnswer b (IsNum (Num p)) with
           | (log, Done (b', Waiting)) =>
               neverPlayerWins log
               && (if board_eqb b' b then true else unbeatenFrom fuel' b')
           | (log, Done (_, Closed)) => neverPlayerWins log
           | (_, _) => false
           end) positions
  end.

(** *** Turns and runs of the console game *)

(** The continuation of one answer: go on with [again] when the callback
    called [playGame()], stop when it closed the input. *)
Definition thenPlay (again : board -> io (board * ending))
    (r : board * ending) : io (board * ending) :=
  match snd r with
  | Waiting => again (fst r)
  | Closed => io_ret r
  end.

Definition askPosition : event := Ask "Enter position (1-9): ".

Definition invalidPosition : event :=
  Print "Invalid position, please enter a number between 1 and 9.".

(** A number outside 1..9, finite or not. *)
Definition outOfRange (n : number) : Prop :=
  match n with
  | Num z => z < 1 \/ 9 < z
  | _ => True
  end.

(** The cell a position from 1 to 9 names. *)
Definition cellOf (position : Z) : move :=
  Move ((position - 1) / 3) (Z.rem (position - 1) 3).

(** What the callback does on an answer from 1 to 9 that names the cell
    [h]: the lines it prints, the board it leaves and whether it closes
    the input or asks again. *)
Inductive turn (b : board) (h : move) : list event -> board -> ending -> Prop :=
| turn_occupied :
    ~ emptyAt b h ->
    turn b h [Print "Invalid move, try again."] b Waiting
| turn_player_wins :
    emptyAt b h ->
    checkWinner (place b h "X") "X" = true ->
    turn b h [Print "Player wins!"; CloseInput] (place b h "X") Closed
| turn_full_after_player :
    emptyAt b h ->
    checkWinner (place b h "X") "X" = false ->
    isBoardFull (place b h "X") = true ->
    turn b h [Print "It's a tie!"; CloseInput] (place b h "X") Closed
| turn_computer_wins (m : move) :
    emptyAt b h ->
    checkWinner (place b h "X") "X" = false ->
    emptyAt (place b h "X") m ->
    Console.makeComputerMove (place b h "X") = Done (place (place b h "X") m "O") ->
    checkWinner (place (place b h "X") m "O") "O" = true ->
    turn b h [Print "Computer wins!"; CloseInput] (place (place b h "X") m "O") Closed
| turn_full_after_computer (m : move) :
    emptyAt b h ->
    checkWinner (place b h "X") "X" = false ->
    emptyAt (place b h "X") m ->
    Console.makeComputerMove (place b h "X") = Done (place (place b h "X") m "O") ->
    checkWinner (place (place b h "X") m "O") "O" = false ->
    isBoardFull (place (place b h "X") m "O") = true ->
    turn b h [Print "It's a tie!"; CloseInput] (place (place b h "X") m "O") Closed
| turn_goes_on (m : move) :
    emptyAt b h ->
    checkWinner (place b h "X") "X" = false ->
    emptyAt (place b h "X") m ->
    Console.makeComputerMove (place b h "X") = Done (place (place b h "X") m "O") ->
    checkWinner (place (place b h "X") m "O") "O" = false ->
    isBoardFull (place (place b h "X") m "O") = false ->
    turn b h [] (place (place b h "X") m "O") Waiting.

(** Nobody has a line. *)
Definition noWinner (b : board) : Prop :=
  checkWinner b "X" = false /\ checkWinner b "O" = false.

(** The verdict a closing turn prints is true of the board it leaves. *)
Definition truthful (verdict : string) (b : board) : Prop :=
  (verdict = "Player wins!"%string /\
   checkWinner b "X" = true /\ checkWinner b "O" = false)
  \/ (verdict = "Computer wins!"%string /\
      checkWinner b "O" = true /\ checkWinner b "X" = false)
  \/ (verdict = "It's a tie!"%string /\
      isBoardFull b = true /\ checkWinner b "X" = false /\ checkWinner b "O" = false).

(** [b'] is [b] with some empty cells filled with X or O. *)
Definition onlyFills (b b' : board) : Prop :=
  forall r c,
    cellAt b' r c = cellAt b r c
    \/ (cellAt b r c = Some EMPTY
        /\ (cellAt b' r c = Some "X"%string \/ cellAt b' r c = Some "O"%string)).

(** ** Renaming the marks *)

(** The board with every cell's string replaced through [f]. *)
Definition renameRow (f : string -> string) (r : row) : row :=
  Row (f (c0 r)) (f (c1 r)) (f (c2 r)).

Definition rename (f : string -> string) (b : board) : board :=
  Board (renameRow f (r0 b)) (renameRow f (r1 b)) (renameRow f (r2 b)).

Definition renameResult (f : string -> string) (o : outcome (number * board))
  : outcome (number * board) :=
  match o with
  | Done (s, b) => Done (s, rename f b)
  | TypeError => TypeError
  | OutOfFuel => OutOfFuel
  end.

Definition renameBoard (f : string -> string) (o : outcome board) : outcome board :=
  match o with
  | Done b => Done (rename f b)
  | TypeError => TypeError
  | OutOfFuel => OutOfFuel
  end.

(** Replaces the console marks by the browser marks and back; every other
    string is left alone. *)
Definition toBrowser (s : string) : string :=
  if String.eqb s Console.computer then Browser.computer
  else if String.eqb s Console.human then Browser.human
  else if String.eqb s Browser.computer then Console.computer
  else if String.eqb s Browser.human then Console.human
  else s.

(** ** The page of the browser program *)

(** The page as the program sees it: the variable [board], the
    [textContent] of the nine cell elements [createBoard] makes (taken
    to be the only elements of class [cell]), the [textContent] of the
    message element, and whether [handleCellClick] is registered on the
    cells ([enableBoard] and [disableBoard] treat the nine alike). *)
Record page := Page {
  pageBoard : board;
  shown : board;
  message : string;
  listening : bool
}.

(** [createBoard()]: nine new cells, without text, with the listener. *)
Definition createBoard (p : page) : page :=
  Page (pageBoard p) emptyBoard (message p) true.

(** [updateBoardDisplay()] *)
Definition updateBoardDisplay (p : page) : page :=
  Page (pageBoard p) (pageBoard p) (message p) (listening p).

(** [disableBoard()] and [enableBoard()] *)
Definition disableBoard (p : page) : page :=
  Page (pageBoard p) (shown p) (message p) false.

Definition enableBoard (p : page) : page :=
  Page (pageBoard p) (shown p) (message p) true.

Definition setMessage (p : page) (text : string) : page :=
  Page (pageBoard p) (shown p) text (listening p).

(** [resetGame()] *)
Definition resetGame (p : page) : page :=
  enableBoard
    (updateBoardDisplay
       (setMessage (Page emptyBoard (shown p) (message p) (listening p)) "")).

(** The page once the program has run its last lines, [createBoard();
    enableBoard();], over a message element that showed [text]. *)
Definition loadedPage (text : string) : page :=
  enableBoard (createBoard (Page emptyBoard emptyBoard text false)).

(** [handleCellClick(event)] for a click on the cell whose [dataset]
    holds [r] and [c]. *)
Definition handleCellClick (p : page) (r c : Z) : outcome page :=
  match rowAt (pageBoard p) r with
  | None => TypeError
  | Some rw =>
      match colAt rw c with
      | Some EmptyString =>
          b1 <- setCell (pageBoard p) r c Browser.human ;;
          let p1 := Page b1 (update (shown p) r c Browser.human)
                      (message p) (listening p) in
          if checkWinner b1 Browser.human then
            Done (disableBoard (setMessage p1 "Player wins!"))
          else if isBoardFull b1 then
            Done (disableBoard (setMessage p1 "It's a tie!"))
          else
            b2 <- Browser.makeComputerMove b1 ;;
            let p2 := updateBoardDisplay
                        (Page b2 (shown p1) (message p1) (listening p1)) in
            if checkWinner b2 Browser.computer then
              Done (disableBoard (setMessage p2 "Computer wins!"))
            else if isBoardFull b2 then
              Done (disableBoard (setMessage p2 "It's a tie!"))
            else Done p2
      | _ => Done p
      end
  end.

(** What happens to the page: a click on a cell, which reaches
    [handleCellClick] only while it is registered, or a call of
    [resetGame], which the program registers for clicks on the reset
    element. *)
Inductive action := Click (r c : Z) | Reset.

Definition act (p : page) (a : action) : outcome page :=
  match a with
  | Click r c => if listening p then handleCellClick p r c else Done p
  | Reset => Done (resetGame p)
  end.

Fixpoint session (actions : list action) (p : page) : outcome page :=
  match actions with
  | [] => Done p
  | a :: rest => p' <- act p a ;; session rest p'
  end.

(** The page after a turn of the console game that printed [log], left
    the console board [b'] and ended in [e]: the board and the cells show
    [b'] with the browser's marks, the message element shows the verdict
    if one was printed, and the listener is gone if the input was closed. *)
Definition pageAfter (p : page) (log : list event) (b' : board) (e : ending) : page :=
  Page (rename toBrowser b') (rename toBrowser b')
       (match log with
        | [Print verdict; CloseInput] => verdict
        | _ => message p
        end)
       (match e with
        | Closed => false
        | Waiting => listening p
        end).

(** What holds of the page at every moment of a session that began on
    the loaded page whose message element showed [text]; [b] is the
    page's board with the console's marks. *)
Definition pageInv (text : string) (p : page) : Prop :=
  shown p = pageBoard p /\
  exists b,
    pageBoard p = rename toBrowser b /\
    checkWinner b "X" = false /\
    (listening p = true ->
       checkWinner b "O" = false /\ isBoardFull b = false
       /\ (exists fuel, unbeatenFrom fuel b = true)
       /\ (message p = text \/ message p = EMPTY)) /\
    (listening p = false ->
       (message p = "Computer wins!"%string /\ checkWinner b "O" = true)
       \/ (message p = "It's a tie!"%string /\ isBoardFull b = true
           /\ checkWinner b "O" = false)).

(** * Lemmas *)

(** ** Facts about the board queries *)

Lemma cellIs_true (b : board) (r c : Z) (s : string) :
  cellIs b r c s = true <-> cellAt b r c = Some s.
Proof.
  unfold cellIs. destruct (cellAt b r c) as [x|].
  - rewrite String.eqb_eq. split; congruence.
  - split; discriminate.
Qed.

Lemma emptyAtb_true (b : board) (m : move) :
  emptyAtb b m = true <-> emptyAt b m.
Proof. apply cellIs_true. Qed.

Lemma emptyAt_inGrid (b : board) (m : move) : emptyAt b m -> inGrid m.
Proof.
  unfold emptyAt, inGrid, cellAt, rowAt, colAt.
  destruct m as [r c]; simpl.
  destruct r as [|[[?|?|]|[?|?|]|]|?]; try discriminate;
    destruct c as [|[[?|?|]|[?|?|]|]|?]; try discriminate; lia.
Qed.

Lemma inGrid_allCells (m : move) : inGrid m <-> In m allCells.
Proof.
  destruct m as [r c]. unfold inGrid; simpl. split.
  - intros [Hr Hc].
    assert (r = 0 \/ r = 1 \/ r = 2) as [->|[->| ->]] by lia;
      assert (c = 0 \/ c = 1 \/ c = 2) as [->|[->| ->]] by lia;
      simpl; tauto.
  - intros H. repeat (destruct H as [H|H]; [inversion H; lia|]). destruct H.
Qed.

(** A loop that pushes the selected elements is a filter. *)
Lemma push_loop {A B : Type} (p : A -> bool) (f : A -> B) (xs : list A) (acc : list B) :
  fold_left (fun moves x => if p x then moves ++ [f x] else moves) xs acc
  = acc ++ map f (filter p xs).
Proof.
  revert acc. induction xs as [|x xs IH]; intros acc; simpl.
  - now rewrite app_nil_r.
  - rewrite IH. destruct (p x); simpl; [now rewrite <- app_assoc|reflexivity].
Qed.

Lemma append_loop {A B : Type} (g : A -> list B) (xs : list A) (acc : list B) :
  fold_left (fun moves x => moves ++ g x) xs acc = acc ++ flat_map g xs.
Proof.
  revert acc. induction xs as [|x xs IH]; intros acc; simpl.
  - now rewrite app_nil_r.
  - rewrite IH. now rewrite app_assoc.
Qed.

Lemma filter_row (q : move -> bool) (r : Z) (cs : list Z) :
  map (Move r) (filter (fun c => q (Move r c)) cs) = filter q (map (Move r) cs).
Proof.
  induction cs as [|c cs IH]; simpl; [reflexivity|].
  destruct (q (Move r c)); simpl; now rewrite IH.
Qed.

Lemma filter_grid (q : move -> bool) (rs cs : list Z) :
  flat_map (fun r => map (Move r) (filter (fun c => q (Move r c)) cs)) rs
  = filter q (flat_map (fun r => map (Move r) cs) rs).
Proof.
  induction rs as [|r rs IH]; simpl; [reflexivity|].
  now rewrite filter_app, IH, filter_row.
Qed.

Lemma loop_ext {A B : Type} (f g : B -> A -> B) (xs : list A) (acc : B) :
  (forall a x, f a x = g a x) -> fold_left f xs acc = fold_left g xs acc.
Proof.
  intros H. revert acc. induction xs as [|x xs IH]; intros acc; simpl;
    [reflexivity|]. now rewrite H, IH.
Qed.

(** [getAvailableMoves] keeps, in order, the coordinates whose cell is empty. *)
Lemma getAvailableMoves_filter (b : board) :
  getAvailableMoves b = filter (emptyAtb b) allCells.
Proof.
  unfold getAvailableMoves, allCells.
  rewrite <- (filter_grid (emptyAtb b)).
  change (flat_map ?g indices) with ([] ++ flat_map g indices).
  rewrite <- append_loop.
  apply loop_ext. intros moves r.
  apply (push_loop (fun c => emptyAtb b (Move r c)) (Move r)).
Qed.

Lemma filter_sorted {A : Type} (lt : A -> A -> Prop) (p : A -> bool) (xs : list A) :
  StronglySorted lt xs -> StronglySorted lt (filter p xs).
Proof.
  induction 1 as [|x xs Hs IH Hx]; simpl; [constructor|].
  destruct (p x); [|exact IH].
  constructor; [exact IH|].
  rewrite Forall_forall in *. intros y Hy.
  apply filter_In in Hy. now apply Hx.
Qed.

Lemma allCells_sorted : StronglySorted rowMajor_lt allCells.
Proof.
  unfold allCells; simpl.
  repeat (constructor; [|repeat constructor; unfold rowMajor_lt; simpl; lia]).
  constructor.
Qed.

Lemma sorted_NoDup (xs : list move) : StronglySorted rowMajor_lt xs -> NoDup xs.
Proof.
  induction 1 as [|x xs Hs IH Hx]; constructor; [|exact IH].
  intros Hin. rewrite Forall_forall in Hx.
  specialize (Hx x Hin). unfold rowMajor_lt in Hx. lia.
Qed.

Lemma getAvailableMoves_In (b : board) (m : move) :
  In m (getAvailableMoves b) <-> emptyAt b m.
Proof.
  rewrite getAvailableMoves_filter, filter_In, emptyAtb_true, <- inGrid_allCells.
  split; [tauto|]. intros H. split; [now apply emptyAt_inGrid with b|exact H].
Qed.

Lemma getAvailableMoves_sorted (b : board) :
  StronglySorted rowMajor_lt (getAvailableMoves b).
Proof.
  rewrite getAvailableMoves_filter. apply filter_sorted, allCells_sorted.
Qed.

(** Case analysis on the nine cells of a board against a mark. *)
Ltac cases_on_cells b s :=
  destruct b as [[x00 x01 x02] [x10 x11 x12] [x20 x21 x22]];
  cbn;
  destruct (String.eqb x00 s) eqn:E00; destruct (String.eqb x01 s) eqn:E01;
  destruct (String.eqb x02 s) eqn:E02; destruct (String.eqb x10 s) eqn:E10;
  destruct (String.eqb x11 s) eqn:E11; destruct (String.eqb x12 s) eqn:E12;
  destruct (String.eqb x20 s) eqn:E20; destruct (String.eqb x21 s) eqn:E21;
  destruct (String.eqb x22 s) eqn:E22.

(** [checkWinner] tests the eight lines. *)
Lemma checkWinner_lines (b : board) (player : string) :
  checkWinner b player = existsb (markedByb b player) lines.
Proof.
  unfold checkWinner, markedByb, cellIs. cases_on_cells b player; reflexivity.
Qed.

Lemma markedByb_true (b : board) (player : string) (line : list (Z * Z)) :
  markedByb b player line = true <-> markedBy b player line.
Proof.
  unfold markedByb, markedBy. rewrite forallb_forall, Forall_forall.
  split; intros H rc Hrc; apply cellIs_true; auto.
Qed.

Lemma checkWinner_iff (b : board) (player : string) :
  checkWinner b player = true <-> Exists (markedBy b player) lines.
Proof.
  rewrite checkWinner_lines, existsb_exists, Exists_exists.
  split; intros [l [Hl H]]; exists l; (split; [exact Hl|]);
    now apply markedByb_true.
Qed.

(** [isBoardFull] answers whether [getAvailableMoves] would be empty. *)
Lemma isBoardFull_moves (b : board) :
  isBoardFull b = match getAvailableMoves b with [] => true | _ :: _ => false end.
Proof.
  unfold isBoardFull, getAvailableMoves, cellIs.
  cases_on_cells b EMPTY; reflexivity.
Qed.

(** ** Writing a mark on an empty cell and taking it back *)

(** An empty cell is one of the nine cells: reason cell by cell. *)
Ltac nine_cells H :=
  let Hg := fresh "Hg" in
  pose proof (emptyAt_inGrid _ _ H) as Hg;
  apply inGrid_allCells in Hg;
  unfold allCells in Hg; simpl in Hg;
  repeat (destruct Hg as [Hg|Hg]; [subst|]); [..|destruct Hg].

Lemma setCell_empty (b : board) (m : move) (v : string) :
  emptyAt b m -> setCell b (i m) (j m) v = Done (place b m v).
Proof. intros H. nine_cells H; reflexivity. Qed.

Lemma setCell_placed (b : board) (m : move) (v w : string) :
  emptyAt b m -> setCell (place b m v) (i m) (j m) w = Done (place (place b m v) m w).
Proof. intros H. nine_cells H; reflexivity. Qed.

Lemma place_undo (b : board) (m : move) (v : string) :
  emptyAt b m -> place (place b m v) m EMPTY = b.
Proof.
  intros H. nine_cells H;
    destruct b as [[x00 x01 x02] [x10 x11 x12] [x20 x21 x22]];
    unfold emptyAt in H; simpl in H; injection H as ->; reflexivity.
Qed.

Lemma cellAt_place (b : board) (m : move) (v : string) :
  emptyAt b m -> cellAt (place b m v) (i m) (j m) = Some v.
Proof. intros H. nine_cells H; reflexivity. Qed.

Lemma emptyCount_place (b : board) (m : move) (v : string) :
  emptyAt b m -> v <> EMPTY -> S (emptyCount (place b m v)) = emptyCount b.
Proof.
  intros H Hv. apply String.eqb_neq in Hv.
  unfold emptyCount, getAvailableMoves, cellIs.
  nine_cells H;
    unfold emptyAt in H;
    destruct b as [[x00 x01 x02] [x10 x11 x12] [x20 x21 x22]];
    simpl in H; injection H as ->; cbn; rewrite Hv;
    repeat match goal with
           | |- context [String.eqb ?x EMPTY] =>
               is_var x; destruct (String.eqb x EMPTY)
           end; reflexivity.
Qed.

Lemma emptyCount_le_9 (b : board) : (emptyCount b <= 9)%nat.
Proof.
  unfold emptyCount. rewrite getAvailableMoves_filter.
  apply (filter_length_le (emptyAtb b) allCells).
Qed.

(** A mark written on an empty cell completes no line of another mark. *)
Lemma checkWinner_place_other (b : board) (m : move) (v player : string) :
  emptyAt b m -> v <> player ->
  checkWinner (place b m v) player = true -> checkWinner b player = true.
Proof.
  intros H Hv. apply String.eqb_neq in Hv.
  unfold checkWinner, cellIs.
  nine_cells H;
    unfold emptyAt in H;
    destruct b as [[x00 x01 x02] [x10 x11 x12] [x20 x21 x22]];
    simpl in H; injection H as ->;
    destruct player as [|a p]; cbn; rewrite Hv;
    repeat match goal with
           | |- context [String.eqb ?x ?y] =>
               is_var x; destruct (String.eqb x y)
           end; simpl; intros; try discriminate; reflexivity.
Qed.

(** ** The search loops *)

(** When every move of the loop names an empty cell of [b] and the
    recursive call hands back the board it was given, the loop hands back
    [b] and its score is the fold of [best] over the scores. *)
Lemma explore_spec (mark : string) (best : number -> number -> number)
    (recur : board -> outcome (number * board)) (score : move -> number)
    (moves : list move) (b : board) (acc : number) :
  (forall m, In m moves -> emptyAt b m) ->
  (forall m, In m moves ->
     recur (place b m mark) = Done (score m, place b m mark)) ->
  explore mark best recur moves b acc
  = Done (fold_left (fun a m => best (score m) a) moves acc, b).
Proof.
  revert acc. induction moves as [|m rest IH]; intros acc Hempty Hrec; simpl.
  - reflexivity.
  - assert (Hm : emptyAt b m) by (apply Hempty; now left).
    rewrite (setCell_empty b m mark Hm); simpl.
    rewrite (Hrec m (or_introl eq_refl)); simpl.
    rewrite (setCell_placed b m mark EMPTY Hm); simpl.
    rewrite (place_undo b m mark Hm).
    apply IH; intros m' Hm'; [apply Hempty|apply Hrec]; now right.
Qed.

Lemma choose_spec (mark : string)
    (recur : board -> outcome (number * board)) (score : move -> number)
    (moves : list move) (b : board) (bm : move) (bs : number) :
  (forall m, In m moves -> emptyAt b m) ->
  (forall m, In m moves ->
     recur (place b m mark) = Done (score m, place b m mark)) ->
  choose mark recur moves b bm bs = Done (pick score moves (bm, bs), b).
Proof.
  revert bm bs. induction moves as [|m rest IH]; intros bm bs Hempty Hrec; simpl.
  - reflexivity.
  - assert (Hm : emptyAt b m) by (apply Hempty; now left).
    rewrite (setCell_empty b m mark Hm); simpl.
    rewrite (Hrec m (or_introl eq_refl)); simpl.
    rewrite (setCell_placed b m mark EMPTY Hm); simpl.
    rewrite (place_undo b m mark Hm).
    unfold pick; simpl.
    destruct (number_gtb (score m) bs);
      apply IH; intros m' Hm'; solve [apply Hempty; now right | apply Hrec; now right].
Qed.

(** Folding [Math.max] or [Math.min] over integer scores, from the
    matching infinity, gives the greatest or the least of them. *)
Lemma fold_max_Num (f : move -> Z) (moves : list move) (z : Z) :
  fold_left (fun a m => Math_max (Num (f m)) a) moves (Num z)
  = Num (fold_left (fun a m => Z.max (f m) a) moves z).
Proof.
  revert z. induction moves as [|m rest IH]; intros z; simpl; [reflexivity|].
  unfold Math_max at 2; simpl.
  destruct (f m <=? z) eqn:E; rewrite IH; f_equal; f_equal.
  - apply Z.leb_le in E. lia.
  - apply Z.leb_gt in E. lia.
Qed.

Lemma fold_min_Num (f : move -> Z) (moves : list move) (z : Z) :
  fold_left (fun a m => Math_min (Num (f m)) a) moves (Num z)
  = Num (fold_left (fun a m => Z.min (f m) a) moves z).
Proof.
  revert z. induction moves as [|m rest IH]; intros z; simpl; [reflexivity|].
  unfold Math_min at 2; simpl.
  destruct (f m <=? z) eqn:E; rewrite IH; f_equal; f_equal.
  - apply Z.leb_le in E. lia.
  - apply Z.leb_gt in E. lia.
Qed.

Lemma fold_max_start (f : move -> Z) (m : move) (rest : list move) :
  fold_left (fun a x => Math_max (Num (f x)) a) (m :: rest) NegInfinity
  = Num (fold_left (fun a x => Z.max (f x) a) rest (f m)).
Proof. simpl. apply fold_max_Num. Qed.

Lemma fold_min_start (f : move -> Z) (m : move) (rest : list move) :
  fold_left (fun a x => Math_min (Num (f x)) a) (m :: rest) Infinity
  = Num (fold_left (fun a x => Z.min (f x) a) rest (f m)).
Proof. simpl. apply fold_min_Num. Qed.

(** ** The recursion of [minimax] *)

Section EngineFacts.

Variables maxMark minMark : string.
Hypothesis maxMark_not_empty : maxMark <> EMPTY.
Hypothesis minMark_not_empty : minMark <> EMPTY.

Lemma minimax_body_done (recur : board -> Z -> bool -> outcome (number * board)) (b : board) (d : Z) (r : bool) :
  answers_below recur b ->
  exists z, minimax_body maxMark minMark recur b d r = Done (Num z, b).
Proof.
  intros Hrec. unfold minimax_body.
  destruct (checkWinner b maxMark); [eexists; reflexivity|].
  destruct (checkWinner b minMark); [eexists; reflexivity|].
  rewrite isBoardFull_moves.
  destruct (getAvailableMoves b) as [|m0 rest] eqn:Hmoves; [eexists; reflexivity|].
  assert (Hempty : forall m, In m (m0 :: rest) -> emptyAt b m)
    by (intros m Hm; apply getAvailableMoves_In; now rewrite Hmoves).
  destruct r.
  - rewrite (explore_spec maxMark _ _
               (fun m => Num (valueOf (recur (place b m maxMark) (d + 1) false))));
      [|exact Hempty|intros m Hm; apply Hrec; auto].
    rewrite fold_max_start. eexists; reflexivity.
  - rewrite (explore_spec minMark _ _
               (fun m => Num (valueOf (recur (place b m minMark) (d + 1) true))));
      [|exact Hempty|intros m Hm; apply Hrec; auto].
    rewrite fold_min_start. eexists; reflexivity.
Qed.

(** The body only consults [recur] on boards one mark fuller. *)
Lemma minimax_body_ext (recur1 recur2 : board -> Z -> bool -> outcome (number * board)) (b : board) (d : Z) (r : bool) :
  answers_below recur1 b ->
  (forall m mark d' r', emptyAt b m -> mark <> EMPTY ->
     recur1 (place b m mark) d' r' = recur2 (place b m mark) d' r') ->
  minimax_body maxMark minMark recur1 b d r
  = minimax_body maxMark minMark recur2 b d r.
Proof.
  intros Hrec Heq. unfold minimax_body.
  destruct (checkWinner b maxMark); [reflexivity|].
  destruct (checkWinner b minMark); [reflexivity|].
  destruct (isBoardFull b); [reflexivity|].
  assert (Hempty : forall m, In m (getAvailableMoves b) -> emptyAt b m)
    by (intros m Hm; now apply getAvailableMoves_In).
  destruct r.
  - rewrite (explore_spec maxMark _ (fun b' => recur1 b' (d + 1) false)
               (fun m => Num (valueOf (recur1 (place b m maxMark) (d + 1) false))));
      [|exact Hempty|intros m Hm; apply Hrec; auto].
    rewrite (explore_spec maxMark _ (fun b' => recur2 b' (d + 1) false)
               (fun m => Num (valueOf (recur1 (place b m maxMark) (d + 1) false))));
      [reflexivity|exact Hempty|].
    intros m Hm. rewrite <- Heq by auto. apply Hrec; auto.
  - rewrite (explore_spec minMark _ (fun b' => recur1 b' (d + 1) true)
               (fun m => Num (valueOf (recur1 (place b m minMark) (d + 1) true))));
      [|exact Hempty|intros m Hm; apply Hrec; auto].
    rewrite (explore_spec minMark _ (fun b' => recur2 b' (d + 1) true)
               (fun m => Num (valueOf (recur1 (place b m minMark) (d + 1) true))));
      [reflexivity|exact Hempty|].
    intros m Hm. rewrite <- Heq by auto. apply Hrec; auto.
Qed.

Lemma Done_valueOf (o : outcome (number * board)) (b : board) :
  (exists z, o = Done (Num z, b)) -> o = Done (Num (valueOf o), b).
Proof. intros [z ->]. reflexivity. Qed.

(** With more fuel than empty cells the search ends, with an integer
    score and the board it was given. *)
Lemma minimax_fuel_done (fuel : nat) (b : board) (d : Z) (r : bool) :
  (emptyCount b < fuel)%nat ->
  exists z, minimax_fuel maxMark minMark fuel b d r = Done (Num z, b).
Proof.
  revert b d r. induction fuel as [|fuel IH]; intros b d r Hfuel; [lia|].
  simpl. apply minimax_body_done.
  intros m mark d' r' Hm Hmark. apply Done_valueOf, IH.
  pose proof (emptyCount_place b m mark Hm Hmark). lia.
Qed.

(** Beyond that, the amount of fuel does not matter. *)
Lemma minimax_fuel_enough (fuel1 fuel2 : nat) (b : board) (d : Z) (r : bool) :
  (emptyCount b < fuel1)%nat -> (emptyCount b < fuel2)%nat ->
  minimax_fuel maxMark minMark fuel1 b d r
  = minimax_fuel maxMark minMark fuel2 b d r.
Proof.
  revert fuel2 b d r.
  induction fuel1 as [|fuel1 IH]; intros fuel2 b d r H1 H2; [lia|].
  destruct fuel2 as [|fuel2]; [lia|]. simpl.
  apply minimax_body_ext.
  - intros m mark d' r' Hm Hmark. apply Done_valueOf, minimax_fuel_done.
    pose proof (emptyCount_place b m mark Hm Hmark). lia.
  - intros m mark d' r' Hm Hmark.
    pose proof (emptyCount_place b m mark Hm Hmark). apply IH; lia.
Qed.

Lemma minimax_done (b : board) (d : Z) (r : bool) :
  exists z, minimax maxMark minMark b d r = Done (Num z, b).
Proof.
  apply minimax_fuel_done. pose proof (emptyCount_le_9 b).
  unfold searchFuel. lia.
Qed.

Lemma minimax_answers (b : board) : answers_below (minimax maxMark minMark) b.
Proof. intros m mark d r _ _. apply Done_valueOf, minimax_done. Qed.

(** [minimax] satisfies the equation its source text reads as. *)
Lemma minimax_unfold (b : board) (d : Z) (r : bool) :
  minimax maxMark minMark b d r
  = minimax_body maxMark minMark (minimax maxMark minMark) b d r.
Proof.
  unfold minimax at 1. unfold searchFuel.
  change (minimax_fuel maxMark minMark 10 b d r)
    with (minimax_body maxMark minMark (minimax_fuel maxMark minMark 9) b d r).
  apply minimax_body_ext.
  - intros m mark d' r' Hm Hmark. apply Done_valueOf, minimax_fuel_done.
    pose proof (emptyCount_place b m mark Hm Hmark).
    pose proof (emptyCount_le_9 b). lia.
  - intros m mark d' r' Hm Hmark. apply minimax_fuel_enough;
      pose proof (emptyCount_place b m mark Hm Hmark);
      pose proof (emptyCount_le_9 b); unfold searchFuel; lia.
Qed.

End EngineFacts.

(** Both programs meet the assumptions made on the marks. *)
Lemma program_marks :
  (Console.computer <> EMPTY /\ Console.human <> EMPTY
   /\ Console.computer <> Console.human) /\
  (Browser.computer <> EMPTY /\ Browser.human <> EMPTY
   /\ Browser.computer <> Browser.human).
Proof. repeat split; discriminate. Qed.

(** ** The selection of [makeComputerMove] *)

Lemma pick_snoc (score : move -> number) (moves : list move) (x : move)
    (start : move * number) :
  pick score (moves ++ [x]) start
  = (if number_gtb (score x) (snd (pick score moves start))
     then (x, score x) else pick score moves start).
Proof. unfold pick. now rewrite fold_left_app. Qed.

(** From the sentinel and minus infinity, over integer scores, the loop
    ends on the first move whose score no other move exceeds. *)
Lemma pick_first_max (score : move -> Z) (moves : list move) :
  moves <> [] ->
  exists pre m post,
    moves = pre ++ m :: post /\
    pick (fun x => Num (score x)) moves (sentinel, NegInfinity) = (m, Num (score m)) /\
    (forall x, In x pre -> score x < score m) /\
    (forall x, In x post -> score x <= score m).
Proof.
  induction moves as [|x moves IH] using rev_ind; [congruence|]. intros _.
  rewrite pick_snoc.
  assert (Hcases : moves = [] \/ moves <> [])
    by (destruct moves; [left; reflexivity|right; discriminate]).
  destruct Hcases as [->|Hne].
  - exists [], x, []. simpl. repeat split; intros y [].
  - destruct (IH Hne) as (pre & m & post & Hsplit & Hpick & Hpre & Hpost).
    rewrite Hpick. unfold number_gtb; simpl.
    destruct (score x <=? score m) eqn:E; simpl.
    + apply Z.leb_le in E.
      exists pre, m, (post ++ [x]). repeat split; auto.
      * rewrite Hsplit. now rewrite <- app_assoc.
      * intros y Hy. apply in_app_or in Hy. destruct Hy as [Hy|[<-|[]]]; auto.
    + apply Z.leb_gt in E.
      exists moves, x, []. repeat split; auto.
      * intros y Hy. rewrite Hsplit in Hy. apply in_app_or in Hy.
        destruct Hy as [Hy|[<-|Hy]]; [specialize (Hpre y Hy)| |specialize (Hpost y Hy)]; lia.
      * intros y [].
Qed.

Section SelectionFacts.

Variables maxMark minMark : string.
Hypothesis maxMark_not_empty : maxMark <> EMPTY.
Hypothesis minMark_not_empty : minMark <> EMPTY.

Lemma selectMove_pick (b : board) :
  selectMove maxMark minMark b
  = Done (pick (fun m => Num (moveScore maxMark minMark b m)) (getAvailableMoves b)
            (sentinel, NegInfinity), b).
Proof.
  unfold selectMove. apply choose_spec.
  - intros m Hm. now apply getAvailableMoves_In.
  - intros m Hm. unfold moveScore.
    apply Done_valueOf, minimax_done; assumption.
Qed.

Lemma selectMove_first_max (b : board) :
  getAvailableMoves b <> [] ->
  exists pre m post,
    getAvailableMoves b = pre ++ m :: post /\
    selectMove maxMark minMark b = Done (m, Num (moveScore maxMark minMark b m), b) /\
    (forall x, In x pre -> moveScore maxMark minMark b x < moveScore maxMark minMark b m) /\
    (forall x, In x post -> moveScore maxMark minMark b x <= moveScore maxMark minMark b m).
Proof.
  intros Hne.
  destruct (pick_first_max (moveScore maxMark minMark b) _ Hne)
    as (pre & m & post & Hsplit & Hpick & Hpre & Hpost).
  exists pre, m, post. rewrite selectMove_pick, Hpick. auto.
Qed.

Lemma moveScore_minimax (b : board) (m : move) :
  minimax maxMark minMark (place b m maxMark) 0 false
  = Done (Num (moveScore maxMark minMark b m), place b m maxMark).
Proof. apply Done_valueOf, minimax_done; assumption. Qed.

End SelectionFacts.

(** ** Forced wins and the depth adjustment *)

Lemma fold_max_attained (f : move -> Z) (rest : list move) (m0 : move) :
  let v := fold_left (fun a x => Z.max (f x) a) rest (f m0) in
  (forall x, In x (m0 :: rest) -> f x <= v) /\ (exists x, In x (m0 :: rest) /\ v = f x).
Proof.
  revert m0. induction rest as [|y rest IH]; intros m0; simpl.
  - split; [intros x [<-|[]]; lia|exists m0; auto].
  - destruct (Z.max_spec (f y) (f m0)) as [[Hlt ->]|[Hle ->]].
    + destruct (IH m0) as [Hall (x & Hx & Hv)]. simpl in *. split.
      * intros z [<-|[<-|Hz]]; [auto| |auto].
        specialize (Hall m0 (or_introl eq_refl)). lia.
      * exists x. split; [|exact Hv]. destruct Hx; auto.
    + destruct (IH y) as [Hall (x & Hx & Hv)]. simpl in *. split.
      * intros z [<-|[<-|Hz]]; [|auto|auto].
        specialize (Hall y (or_introl eq_refl)). lia.
      * exists x. split; [|exact Hv]. destruct Hx; auto.
Qed.

Lemma fold_min_attained (f : move -> Z) (rest : list move) (m0 : move) :
  let v := fold_left (fun a x => Z.min (f x) a) rest (f m0) in
  (forall x, In x (m0 :: rest) -> v <= f x) /\ (exists x, In x (m0 :: rest) /\ v = f x).
Proof.
  revert m0. induction rest as [|y rest IH]; intros m0; simpl.
  - split; [intros x [<-|[]]; lia|exists m0; auto].
  - destruct (Z.min_spec (f y) (f m0)) as [[Hlt ->]|[Hle ->]].
    + destruct (IH y) as [Hall (x & Hx & Hv)]. simpl in *. split.
      * intros z [<-|[<-|Hz]]; [|auto|auto].
        specialize (Hall y (or_introl eq_refl)). lia.
      * exists x. split; [|exact Hv]. destruct Hx; auto.
    + destruct (IH m0) as [Hall (x & Hx & Hv)]. simpl in *. split.
      * intros z [<-|[<-|Hz]]; [auto| |auto].
        specialize (Hall m0 (or_introl eq_refl)). lia.
      * exists x. split; [|exact Hv]. destruct Hx; auto.
Qed.

Section DepthFacts.

Variables maxMark minMark : string.
Hypothesis maxMark_not_empty : maxMark <> EMPTY.
Hypothesis minMark_not_empty : minMark <> EMPTY.

Lemma minimax_value (b : board) (d : Z) (r : bool) :
  minimax maxMark minMark b d r = Done (Num (value maxMark minMark b d r), b).
Proof. apply Done_valueOf, minimax_done; assumption. Qed.

Lemma nonTerminal_true (b : board) :
  nonTerminal maxMark minMark b = true <->
  checkWinner b maxMark = false /\ checkWinner b minMark = false
  /\ isBoardFull b = false.
Proof.
  unfold nonTerminal. rewrite !andb_true_iff, !negb_true_iff. tauto.
Qed.

Lemma value_max_wins (b : board) (d : Z) (r : bool) :
  checkWinner b maxMark = true -> value maxMark minMark b d r = 10 - d.
Proof.
  intros H. unfold value. rewrite minimax_unfold by assumption.
  unfold minimax_body. now rewrite H.
Qed.

Lemma value_min_wins (b : board) (d : Z) (r : bool) :
  checkWinner b maxMark = false -> checkWinner b minMark = true ->
  value maxMark minMark b d r = d - 10.
Proof.
  intros H1 H2. unfold value. rewrite minimax_unfold by assumption.
  unfold minimax_body. now rewrite H1, H2.
Qed.

Lemma value_full (b : board) (d : Z) (r : bool) :
  checkWinner b maxMark = false -> checkWinner b minMark = false ->
  isBoardFull b = true -> value maxMark minMark b d r = 0.
Proof.
  intros H1 H2 H3. unfold value. rewrite minimax_unfold by assumption.
  unfold minimax_body. now rewrite H1, H2, H3.
Qed.

Lemma value_search_max (b : board) (d : Z) :
  nonTerminal maxMark minMark b = true ->
  exists m0 rest,
    getAvailableMoves b = m0 :: rest /\
    value maxMark minMark b d true
    = fold_left (fun a x => Z.max (value maxMark minMark (place b x maxMark) (d + 1) false) a)
        rest (value maxMark minMark (place b m0 maxMark) (d + 1) false).
Proof.
  intros Hnt. apply nonTerminal_true in Hnt. destruct Hnt as (H1 & H2 & H3).
  pose proof (minimax_value b d true) as E.
  rewrite minimax_unfold in E by assumption.
  unfold minimax_body in E. rewrite H1, H2, H3 in E.
  rewrite (explore_spec maxMark _ _
             (fun m => Num (value maxMark minMark (place b m maxMark) (d + 1) false))) in E;
    [|intros m Hm; now apply getAvailableMoves_In|intros m Hm; apply minimax_value].
  rewrite isBoardFull_moves in H3.
  destruct (getAvailableMoves b) as [|m0 rest]; [discriminate|].
  rewrite fold_max_start in E. exists m0, rest.
  split; [reflexivity|congruence].
Qed.

Lemma value_search_min (b : board) (d : Z) :
  nonTerminal maxMark minMark b = true ->
  exists m0 rest,
    getAvailableMoves b = m0 :: rest /\
    value maxMark minMark b d false
    = fold_left (fun a x => Z.min (value maxMark minMark (place b x minMark) (d + 1) true) a)
        rest (value maxMark minMark (place b m0 minMark) (d + 1) true).
Proof.
  intros Hnt. apply nonTerminal_true in Hnt. destruct Hnt as (H1 & H2 & H3).
  pose proof (minimax_value b d false) as E.
  rewrite minimax_unfold in E by assumption.
  unfold minimax_body in E. rewrite H1, H2, H3 in E.
  rewrite (explore_spec minMark _ _
             (fun m => Num (value maxMark minMark (place b m minMark) (d + 1) true))) in E;
    [|intros m Hm; now apply getAvailableMoves_In|intros m Hm; apply minimax_value].
  rewrite isBoardFull_moves in H3.
  destruct (getAvailableMoves b) as [|m0 rest]; [discriminate|].
  rewrite fold_min_start in E. exists m0, rest.
  split; [reflexivity|congruence].
Qed.

(** On a non-terminal board the maximizer's value is the greatest value
    among the boards its moves lead to ... *)
Lemma value_maximizing (b : board) (d : Z) :
  nonTerminal maxMark minMark b = true ->
  (forall m, emptyAt b m ->
     value maxMark minMark (place b m maxMark) (d + 1) false <= value maxMark minMark b d true) /\
  (exists m, emptyAt b m /\
     value maxMark minMark b d true = value maxMark minMark (place b m maxMark) (d + 1) false).
Proof.
  intros Hnt.
  destruct (value_search_max b d Hnt) as (m0 & rest & Hmoves & ->).
  pose proof (getAvailableMoves_In b) as Hin. rewrite Hmoves in Hin.
  destruct (fold_max_attained (fun m => value maxMark minMark (place b m maxMark) (d + 1) false) rest m0)
    as [Hall (x & Hx & Hv)].
  split.
  - intros m Hm. apply Hall. now apply Hin.
  - exists x. split; [now apply Hin|exact Hv].
Qed.

(** ... and the minimizer's value is the least. *)
Lemma value_minimizing (b : board) (d : Z) :
  nonTerminal maxMark minMark b = true ->
  (forall m, emptyAt b m ->
     value maxMark minMark b d false <= value maxMark minMark (place b m minMark) (d + 1) true) /\
  (exists m, emptyAt b m /\
     value maxMark minMark b d false = value maxMark minMark (place b m minMark) (d + 1) true).
Proof.
  intros Hnt.
  destruct (value_search_min b d Hnt) as (m0 & rest & Hmoves & ->).
  pose proof (getAvailableMoves_In b) as Hin. rewrite Hmoves in Hin.
  destruct (fold_min_attained (fun m => value maxMark minMark (place b m minMark) (d + 1) true) rest m0)
    as [Hall (x & Hx & Hv)].
  split.
  - intros m Hm. apply Hall. now apply Hin.
  - exists x. split; [now apply Hin|exact Hv].
Qed.

Lemma nonTerminal_cases (b : board) :
  nonTerminal maxMark minMark b = true
  \/ checkWinner b maxMark = true
  \/ (checkWinner b maxMark = false /\ checkWinner b minMark = true)
  \/ (checkWinner b maxMark = false /\ checkWinner b minMark = false
      /\ isBoardFull b = true).
Proof.
  unfold nonTerminal.
  destruct (checkWinner b maxMark), (checkWinner b minMark), (isBoardFull b);
    simpl; tauto.
Qed.

Lemma depthFits_place (b : board) (m : move) (mark : string) (d : Z) :
  emptyAt b m -> mark <> EMPTY -> depthFits b d ->
  depthFits (place b m mark) (d + 1).
Proof.
  unfold depthFits. intros Hm Hmark Hd.
  pose proof (emptyCount_place b m mark Hm Hmark). lia.
Qed.

(** At a consistent depth no score exceeds [10 - depth], and without a
    line of the maximizer on the board none exceeds [9 - depth]. *)
Lemma value_upper (n : nat) (b : board) (d : Z) (r : bool) :
  (emptyCount b <= n)%nat -> depthFits b d ->
  value maxMark minMark b d r <= 10 - d /\ (checkWinner b maxMark = false -> value maxMark minMark b d r <= 9 - d).
Proof.
  revert b d r. induction n as [|n IH]; intros b d r Hn Hd.
  - destruct (nonTerminal_cases b) as [Hnt|[Hw|[[Hw1 Hw2]|(Hw1 & Hw2 & Hf)]]].
    + apply nonTerminal_true in Hnt. destruct Hnt as (_ & _ & Hf).
      rewrite isBoardFull_moves in Hf. unfold emptyCount in Hn.
      destruct (getAvailableMoves b); [discriminate|simpl in Hn; lia].
    + rewrite value_max_wins by assumption. split; [lia|congruence].
    + rewrite value_min_wins by assumption. unfold depthFits in Hd. lia.
    + rewrite value_full by assumption. unfold depthFits in Hd. lia.
  - destruct (nonTerminal_cases b) as [Hnt|[Hw|[[Hw1 Hw2]|(Hw1 & Hw2 & Hf)]]].
    + assert (Hchild : forall m mark r', emptyAt b m -> mark <> EMPTY ->
                value maxMark minMark (place b m mark) (d + 1) r' <= 9 - d).
      { intros m mark r' Hm Hmark.
        destruct (IH (place b m mark) (d + 1) r') as [Hle _].
        - pose proof (emptyCount_place b m mark Hm Hmark). lia.
        - now apply depthFits_place.
        - lia. }
      destruct r.
      * destruct (value_maximizing b d Hnt) as [_ (m & Hm & ->)].
        specialize (Hchild m maxMark false Hm maxMark_not_empty). lia.
      * destruct (value_minimizing b d Hnt) as [_ (m & Hm & ->)].
        specialize (Hchild m minMark true Hm minMark_not_empty). lia.
    + rewrite value_max_wins by assumption. split; [lia|congruence].
    + rewrite value_min_wins by assumption. unfold depthFits in Hd. lia.
    + rewrite value_full by assumption. unfold depthFits in Hd. lia.
Qed.

End DepthFacts.

Section ForcedWins.

Variables maxMark minMark : string.
Hypothesis maxMark_not_empty : maxMark <> EMPTY.
Hypothesis minMark_not_empty : minMark <> EMPTY.
Hypothesis marks_differ : maxMark <> minMark.

Lemma winsNow_true (b : board) :
  winsNow maxMark b = true <->
  exists m, emptyAt b m /\ checkWinner (place b m maxMark) maxMark = true.
Proof.
  unfold winsNow. rewrite existsb_exists.
  split; intros (m & Hm & Hw); exists m; (split; [|exact Hw]);
    now apply getAvailableMoves_In.
Qed.

Lemma winsNow_false (b : board) (m : move) :
  winsNow maxMark b = false -> emptyAt b m ->
  checkWinner (place b m maxMark) maxMark = false.
Proof.
  intros Hno Hm.
  destruct (checkWinner (place b m maxMark) maxMark) eqn:E; [|reflexivity].
  assert (winsNow maxMark b = true) by (apply winsNow_true; eauto).
  congruence.
Qed.

(** A board on which the maximizer wins with its next mark is worth
    [9 - depth] to the maximizer. *)
Lemma winIn1_value (b : board) (d : Z) :
  winIn1 maxMark minMark b = true -> depthFits b d ->
  value maxMark minMark b d true = 9 - d.
Proof.
  unfold winIn1. rewrite andb_true_iff. intros [Hnt Hnow] Hd.
  apply winsNow_true in Hnow. destruct Hnow as (m & Hm & Hw).
  destruct (value_maximizing maxMark minMark maxMark_not_empty minMark_not_empty b d Hnt)
    as [Hge _].
  specialize (Hge m Hm).
  rewrite (value_max_wins maxMark minMark) in Hge by assumption.
  destruct (value_upper maxMark minMark maxMark_not_empty minMark_not_empty
              (emptyCount b) b d true (le_n _) Hd) as [_ Hle].
  apply nonTerminal_true in Hnt. destruct Hnt as (Hw1 & _ & _).
  specialize (Hle Hw1). lia.
Qed.

(** A board on which the maximizer forces a win in three moves and not
    sooner is worth [7 - depth] to the maximizer. *)
Lemma winIn3_value (b : board) (d : Z) :
  winIn3 maxMark minMark b = true -> depthFits b d ->
  value maxMark minMark b d true = 7 - d.
Proof.
  unfold winIn3. rewrite !andb_true_iff, negb_true_iff.
  intros [[Hnt Hnow] Hforce] Hd.
  apply existsb_exists in Hforce. destruct Hforce as (m1 & Hm1 & Hforce).
  apply getAvailableMoves_In in Hm1.
  cbv zeta in Hforce. apply andb_true_iff in Hforce. destruct Hforce as [Hnt1 Hreplies].
  rewrite forallb_forall in Hreplies.
  destruct (value_maximizing maxMark minMark maxMark_not_empty minMark_not_empty b d Hnt)
    as [Hge (m & Hm & Hbest)].
  assert (Hd1 : forall x, emptyAt b x -> depthFits (place b x maxMark) (d + 1))
    by (intros x Hx; now apply depthFits_place).
  (* the forcing move is worth 7 - d *)
  assert (Hlow : value maxMark minMark (place b m1 maxMark) (d + 1) false = 7 - d).
  { destruct (value_minimizing maxMark minMark maxMark_not_empty minMark_not_empty
                (place b m1 maxMark) (d + 1) Hnt1) as [_ (m' & Hm' & ->)].
    rewrite winIn1_value.
    - lia.
    - apply Hreplies. now apply getAvailableMoves_In.
    - apply depthFits_place; auto. }
  (* no move is worth more *)
  assert (Hd7 : d <= 7).
  { apply nonTerminal_true in Hnt1. destruct Hnt1 as (_ & _ & Hf).
    rewrite isBoardFull_moves in Hf.
    pose proof (emptyCount_place b m1 maxMark Hm1 maxMark_not_empty) as Hc.
    unfold depthFits in Hd. unfold emptyCount in Hc at 1.
    destruct (getAvailableMoves (place b m1 maxMark)); [discriminate|].
    simpl in Hc. lia. }
  assert (Hup : value maxMark minMark (place b m maxMark) (d + 1) false <= 7 - d).
  { pose proof (winsNow_false b m Hnow Hm) as Hnowin.
    destruct (nonTerminal_cases maxMark minMark (place b m maxMark))
      as [Hntc|[Hw|[[Hw1 Hw2]|(Hw1 & Hw2 & Hf)]]].
    - destruct (value_minimizing maxMark minMark maxMark_not_empty minMark_not_empty
                  (place b m maxMark) (d + 1) Hntc) as [_ (m' & Hm' & ->)].
      destruct (value_upper maxMark minMark maxMark_not_empty minMark_not_empty
                  (emptyCount (place (place b m maxMark) m' minMark))
                  (place (place b m maxMark) m' minMark) (d + 1 + 1) true (le_n _))
        as [_ Hle].
      + apply depthFits_place; auto.
      + assert (Hno : checkWinner (place (place b m maxMark) m' minMark) maxMark = false).
        { destruct (checkWinner (place (place b m maxMark) m' minMark) maxMark) eqn:E;
            [|reflexivity].
          apply checkWinner_place_other in E; auto. congruence. }
        specialize (Hle Hno). lia.
    - congruence.
    - rewrite (value_min_wins maxMark minMark) by assumption. lia.
    - rewrite (value_full maxMark minMark) by assumption. lia. }
  specialize (Hge m1 Hm1). lia.
Qed.

End ForcedWins.

(** Every call the programs make has a depth from 0 on that, added to the
    number of empty cells of its board, is at most eight. *)
Lemma searchCall_depth (maxMark minMark : string) (b : board) (depth : Z)
    (isMaximizing : bool) :
  maxMark <> EMPTY -> minMark <> EMPTY ->
  searchCall maxMark minMark b depth isMaximizing ->
  0 <= depth /\ depth + Z.of_nat (emptyCount b) <= 8.
Proof.
  intros Hmax Hmin Hcall.
  induction Hcall as [b m Hm|b depth isMaximizing m _ IH _ Hm].
  - pose proof (emptyCount_place b m maxMark Hm Hmax).
    pose proof (emptyCount_le_9 b). lia.
  - assert (Hmark : (if isMaximizing then maxMark else minMark) <> EMPTY)
      by (destruct isMaximizing; assumption).
    pose proof (emptyCount_place b m _ Hm Hmark). lia.
Qed.

(** ** More on lists and cells *)

Lemma sorted_after (pre post : list move) (m : move) :
  StronglySorted rowMajor_lt (pre ++ m :: post) ->
  forall x, In x post -> rowMajor_lt m x.
Proof.
  induction pre as [|p pre IH]; simpl; intros Hs x Hx.
  - apply StronglySorted_inv in Hs. destruct Hs as [_ Hall].
    rewrite Forall_forall in Hall. now apply Hall.
  - apply StronglySorted_inv in Hs. destruct Hs as [Hs _]. now apply IH.
Qed.

Lemma cellAt_place_other (b : board) (m : move) (v : string) (r c : Z) :
  (r, c) <> (i m, j m) -> cellAt (place b m v) r c = cellAt b r c.
Proof.
  destruct m as [mi mj]. unfold place, update, setCol, cellAt, rowAt, colAt. simpl.
  intros Hne.
  destruct mi as [|[?|[?|?|]|]|?]; try reflexivity;
    destruct r as [|[?|[?|?|]|]|?]; try reflexivity;
    destruct mj as [|[?|[?|?|]|]|?]; try reflexivity;
    destruct c as [|[?|[?|?|]|]|?]; try reflexivity;
    congruence.
Qed.

Lemma isBoardFull_false (b : board) :
  isBoardFull b = false <-> getAvailableMoves b <> [].
Proof.
  rewrite isBoardFull_moves.
  destruct (getAvailableMoves b); split; congruence.
Qed.

(** * The claims *)

(** C1: for every board, depth and role, [minimax] first tests the
    maximizer's line and returns [10 - depth]; only without one does it
    test the minimizer's line and return [depth - 10]; only without
    either does it test fullness and return [0]; otherwise the board is
    not terminal and the result is that of the search loop over the
    legal moves, each explored by [minimax] itself one level deeper. *)
Theorem minimax_terminal_priority
    (maxMark minMark : string) (b : board) (depth : Z) (isMaximizing : bool) :
  maxMark <> EMPTY -> minMark <> EMPTY ->
  (checkWinner b maxMark = true ->
     minimax maxMark minMark b depth isMaximizing = Done (Num (10 - depth), b)) /\
  (checkWinner b maxMark = false -> checkWinner b minMark = true ->
     minimax maxMark minMark b depth isMaximizing = Done (Num (depth - 10), b)) /\
  (checkWinner b maxMark = false -> checkWinner b minMark = false ->
   isBoardFull b = true ->
     minimax maxMark minMark b depth isMaximizing = Done (Num 0, b)) /\
  (checkWinner b maxMark = false -> checkWinner b minMark = false ->
   isBoardFull b = false ->
     minimax maxMark minMark b depth isMaximizing
     = if isMaximizing
       then explore maxMark (fun score bestScore => Math_max score bestScore)
              (fun b' => minimax maxMark minMark b' (depth + 1) false)
              (getAvailableMoves b) b NegInfinity
       else explore minMark (fun score bestScore => Math_min score bestScore)
              (fun b' => minimax maxMark minMark b' (depth + 1) true)
              (getAvailableMoves b) b Infinity).
Proof.
  intros Hmax Hmin.
  rewrite (minimax_unfold maxMark minMark Hmax Hmin b depth isMaximizing).
  unfold minimax_body.
  repeat split.
  - intros ->. reflexivity.
  - intros -> ->. reflexivity.
  - intros -> -> ->. reflexivity.
  - intros -> -> ->. reflexivity.
Qed.

Lemma minimax_terminal_priority_witness :
  checkWinner bothLines "O" = true /\
  checkWinner bothLines "X" = true /\
  minimax "O" "X" bothLines 3 false = Done (Num (10 - 3), bothLines).
Proof.
  split; [reflexivity|]. split; [reflexivity|].
  apply (minimax_terminal_priority "O" "X" bothLines 3 false);
    [discriminate|discriminate|reflexivity].
Defined.

(** C3: for every board, depth and role, [minimax] ends and hands back
    the board it was given; and a search loop started on that board, over
    any moves that name empty cells of it, hands the same board back, so
    each sibling branch and the caller see the board that was passed in. *)
Theorem minimax_restores_board
    (maxMark minMark : string) (b : board) (depth : Z) (isMaximizing : bool) :
  maxMark <> EMPTY -> minMark <> EMPTY ->
  (exists score,
     minimax maxMark minMark b depth isMaximizing = Done (score, b)) /\
  (forall mark best moves bestScore r,
     (forall m, In m moves -> emptyAt b m) ->
     exists score,
       explore mark best (fun b' => minimax maxMark minMark b' (depth + 1) r)
         moves b bestScore = Done (score, b)).
Proof.
  intros Hmax Hmin. split.
  - destruct (minimax_done maxMark minMark Hmax Hmin b depth isMaximizing) as [z Hz].
    exists (Num z). exact Hz.
  - intros mark best moves bestScore r Hempty.
    eexists.
    apply (explore_spec mark best _
             (fun m => Num (value maxMark minMark (place b m mark) (depth + 1) r))).
    + exact Hempty.
    + intros m _. now apply minimax_value.
Qed.

Lemma minimax_restores_board_witness :
  (exists score, minimax "O" "X" rowOpen 0 true = Done (score, rowOpen)) /\
  (forall mark best moves bestScore r,
     (forall m, In m moves -> emptyAt rowOpen m) ->
     exists score,
       explore mark best (fun b' => minimax "O" "X" b' (0 + 1) r)
         moves rowOpen bestScore = Done (score, rowOpen)).
Proof.
  apply (minimax_restores_board "O" "X" rowOpen 0 true); discriminate.
Defined.

(** C4: for every board, [getAvailableMoves] returns exactly the
    coordinates of the empty cells, without duplicates, in row-major
    order: it is the list of the nine coordinates, row 0 left to right,
    then row 1, then row 2, with the occupied cells left out. *)
Theorem getAvailableMoves_exact (b : board) :
  (forall m, In m (getAvailableMoves b)
             <-> inGrid m /\ cellAt b (i m) (j m) = Some EMPTY) /\
  NoDup (getAvailableMoves b) /\
  StronglySorted rowMajor_lt (getAvailableMoves b) /\
  getAvailableMoves b
  = filter (emptyAtb b)
      [Move 0 0; Move 0 1; Move 0 2;
       Move 1 0; Move 1 1; Move 1 2;
       Move 2 0; Move 2 1; Move 2 2].
Proof.
  split; [|split; [|split]].
  - intros m. rewrite getAvailableMoves_In. split.
    + intros Hm. split; [now apply emptyAt_inGrid with b|exact Hm].
    + intros [_ Hm]. exact Hm.
  - apply sorted_NoDup, getAvailableMoves_sorted.
  - apply getAvailableMoves_sorted.
  - apply getAvailableMoves_filter.
Qed.

(** C5: for every board and every player mark, [checkWinner] returns
    true exactly when one of the eight lines (three rows, three columns,
    two diagonals) has all three cells marked by that player. *)
Theorem checkWinner_eight_lines (b : board) (player : string) :
  List.length lines = 8%nat /\
  (checkWinner b player = true <-> Exists (markedBy b player) lines).
Proof.
  split; [reflexivity|].
  rewrite checkWinner_lines, existsb_exists, Exists_exists.
  split; intros [l [Hl H]]; exists l; (split; [exact Hl|]);
    now apply markedByb_true.
Qed.

(** C10: [checkWinner] takes the empty mark as a player like any other:
    it returns true whenever some line consists of empty cells only, and
    so on the completely empty board. *)
Theorem checkWinner_empty_mark (b : board) :
  Exists (markedBy b EMPTY) lines ->
  checkWinner b EMPTY = true /\ checkWinner emptyBoard EMPTY = true.
Proof.
  intros H. split.
  - now apply checkWinner_iff.
  - reflexivity.
Qed.

Lemma checkWinner_empty_mark_witness :
  Exists (markedBy rowOpen EMPTY) lines /\
  checkWinner rowOpen EMPTY = true /\ checkWinner emptyBoard EMPTY = true.
Proof.
  assert (H : Exists (markedBy rowOpen EMPTY) lines).
  { do 5 apply Exists_cons_tl. apply Exists_cons_hd. repeat constructor. }
  split; [exact H|].
  apply (checkWinner_empty_mark rowOpen H).
Defined.

(** C2: for every board with an empty cell, [makeComputerMove] scores
    each legal move, in the row-major order of [getAvailableMoves], by
    [minimax(board, 0, false)] on the board with the computer's mark on
    the move's cell, and replaces its candidate only on a strictly greater
    score; the move it ends on has the greatest score, every move
    enumerated before it scores strictly less, and so among the moves of
    greatest score it is the first in row-major order. *)
Theorem bestMove_first_of_the_best (maxMark minMark : string) (b : board) :
  maxMark <> EMPTY -> minMark <> EMPTY -> isBoardFull b = false ->
  exists (score : move -> Z) (pre : list move) (m : move) (post : list move),
    (forall x, In x (getAvailableMoves b) ->
       minimax maxMark minMark (place b x maxMark) 0 false
       = Done (Num (score x), place b x maxMark)) /\
    selectMove maxMark minMark b
    = Done (pick (fun x => Num (score x)) (getAvailableMoves b)
              (sentinel, NegInfinity), b) /\
    getAvailableMoves b = pre ++ m :: post /\
    bestMove maxMark minMark b = Done m /\
    (forall x, In x pre -> score x < score m) /\
    (forall x, In x post -> score x <= score m) /\
    (forall x, In x (getAvailableMoves b) -> score x = score m ->
       x = m \/ rowMajor_lt m x).
Proof.
  intros Hmax Hmin Hfull. apply isBoardFull_false in Hfull.
  destruct (selectMove_first_max maxMark minMark Hmax Hmin b Hfull)
    as (pre & m & post & Hsplit & Hsel & Hpre & Hpost).
  exists (moveScore maxMark minMark b), pre, m, post.
  split; [intros x _; now apply moveScore_minimax|].
  split; [now apply selectMove_pick|].
  split; [exact Hsplit|].
  split; [unfold bestMove; now rewrite Hsel|].
  split; [exact Hpre|]. split; [exact Hpost|].
  intros x Hx Heq. rewrite Hsplit in Hx. apply in_app_or in Hx.
  destruct Hx as [Hx|[Hx|Hx]].
  - specialize (Hpre x Hx). lia.
  - left. now symmetry.
  - right. apply (sorted_after pre post m); [|exact Hx].
    rewrite <- Hsplit. apply getAvailableMoves_sorted.
Qed.

Lemma bestMove_first_of_the_best_witness :
  exists (score : move -> Z) (pre : list move) (m : move) (post : list move),
    (forall x, In x (getAvailableMoves rowOpen) ->
       minimax "O" "X" (place rowOpen x "O") 0 false
       = Done (Num (score x), place rowOpen x "O")) /\
    selectMove "O" "X" rowOpen
    = Done (pick (fun x => Num (score x)) (getAvailableMoves rowOpen)
              (sentinel, NegInfinity), rowOpen) /\
    getAvailableMoves rowOpen = pre ++ m :: post /\
    bestMove "O" "X" rowOpen = Done m /\
    (forall x, In x pre -> score x < score m) /\
    (forall x, In x post -> score x <= score m) /\
    (forall x, In x (getAvailableMoves rowOpen) -> score x = score m ->
       x = m \/ rowMajor_lt m x).
Proof.
  apply (bestMove_first_of_the_best "O" "X" rowOpen);
    [discriminate|discriminate|reflexivity].
Defined.

(** C9: for every board with an empty cell, the move [makeComputerMove]
    ends on is one of the moves [getAvailableMoves] listed, not the
    sentinel [{ i: -1, j: -1 }]; the final assignment succeeds and writes
    to a cell inside the grid that was empty in the board passed in. *)
Theorem makeComputerMove_writes_legal_cell (maxMark minMark : string) (b : board) :
  maxMark <> EMPTY -> minMark <> EMPTY -> isBoardFull b = false ->
  exists m,
    bestMove maxMark minMark b = Done m /\
    In m (getAvailableMoves b) /\
    m <> sentinel /\
    inGrid m /\
    cellAt b (i m) (j m) = Some EMPTY /\
    makeComputerMove maxMark minMark b = setCell b (i m) (j m) maxMark /\
    setCell b (i m) (j m) maxMark = Done (place b m maxMark).
Proof.
  intros Hmax Hmin Hfull. apply isBoardFull_false in Hfull.
  destruct (selectMove_first_max maxMark minMark Hmax Hmin b Hfull)
    as (pre & m & post & Hsplit & Hsel & _ & _).
  assert (Hin : In m (getAvailableMoves b))
    by (rewrite Hsplit; apply in_or_app; right; now left).
  assert (Hempty : emptyAt b m) by now apply getAvailableMoves_In.
  assert (Hgrid : inGrid m) by now apply emptyAt_inGrid with b.
  exists m.
  split; [unfold bestMove; now rewrite Hsel|].
  split; [exact Hin|].
  split; [intros ->; unfold inGrid in Hgrid; simpl in Hgrid; lia|].
  split; [exact Hgrid|]. split; [exact Hempty|].
  split; [unfold makeComputerMove; now rewrite Hsel|].
  now apply setCell_empty.
Qed.

Lemma makeComputerMove_writes_legal_cell_witness :
  exists m,
    bestMove "O" "X" rowOpen = Done m /\
    In m (getAvailableMoves rowOpen) /\
    m <> sentinel /\
    inGrid m /\
    cellAt rowOpen (i m) (j m) = Some EMPTY /\
    makeComputerMove "O" "X" rowOpen = setCell rowOpen (i m) (j m) "O" /\
    setCell rowOpen (i m) (j m) "O" = Done (place rowOpen m "O").
Proof.
  apply (makeComputerMove_writes_legal_cell "O" "X" rowOpen);
    [discriminate|discriminate|reflexivity].
Defined.

(** C8, as the code has it: for every board with an empty cell,
    [makeComputerMove] selects a coordinate and itself writes the
    computer's mark there, on the board it was given: the board it leaves
    carries the mark at the selected cell, equals the given board at every
    other cell, and differs from the given board.  The function returns
    no coordinate to its caller. *)
Theorem makeComputerMove_applies_its_move (maxMark minMark : string) (b : board) :
  maxMark <> EMPTY -> minMark <> EMPTY -> isBoardFull b = false ->
  exists m b',
    bestMove maxMark minMark b = Done m /\
    makeComputerMove maxMark minMark b = Done b' /\
    cellAt b' (i m) (j m) = Some maxMark /\
    (forall r c, (r, c) <> (i m, j m) -> cellAt b' r c = cellAt b r c) /\
    b' <> b.
Proof.
  intros Hmax Hmin Hfull. apply isBoardFull_false in Hfull.
  destruct (selectMove_first_max maxMark minMark Hmax Hmin b Hfull)
    as (pre & m & post & Hsplit & Hsel & _ & _).
  assert (Hempty : emptyAt b m).
  { apply getAvailableMoves_In. rewrite Hsplit.
    apply in_or_app; right; now left. }
  exists m, (place b m maxMark).
  split; [unfold bestMove; now rewrite Hsel|].
  split; [unfold makeComputerMove; rewrite Hsel; now apply setCell_empty|].
  split; [now apply cellAt_place|].
  split; [intros r c Hrc; now apply cellAt_place_other|].
  intros Heq. pose proof (cellAt_place b m maxMark Hempty) as Hcell.
  rewrite Heq in Hcell. unfold emptyAt in Hempty. congruence.
Qed.

Lemma makeComputerMove_applies_its_move_witness :
  exists m b',
    bestMove "O" "X" rowOpen = Done m /\
    makeComputerMove "O" "X" rowOpen = Done b' /\
    cellAt b' (i m) (j m) = Some "O"%string /\
    (forall r c, (r, c) <> (i m, j m) -> cellAt b' r c = cellAt rowOpen r c) /\
    b' <> rowOpen.
Proof.
  apply (makeComputerMove_applies_its_move "O" "X" rowOpen);
    [discriminate|discriminate|reflexivity].
Defined.

(** C8, as the claim has it, fails: on the board O O _ / X X _ / X _ _ the
    selected move is (0, 2) and [makeComputerMove] leaves the board with
    the mark written there, not the board it was given. *)
Lemma makeComputerMove_changes_the_board :
  Console.bestMove rowOpen = Done (Move 0 2) /\
  Console.makeComputerMove rowOpen
  = Done (Board (Row "O" "O" "O") (Row "X" "X" EMPTY) (Row "X" EMPTY EMPTY)) /\
  Board (Row "O" "O" "O") (Row "X" "X" EMPTY) (Row "X" EMPTY EMPTY) <> rowOpen.
Proof.
  split; [vm_compute; reflexivity|].
  split; [vm_compute; reflexivity|discriminate].
Qed.

(** C6: on the completely empty board, at depth 0 with the maximizer to
    move, [minimax] of the console program returns 0. *)
Theorem minimax_empty_board_is_draw :
  Console.minimax emptyBoard 0 true = Done (Num 0, emptyBoard).
Proof.
  unfold Console.minimax, Console.computer, Console.human.
  vm_compute. reflexivity.
Qed.

(** C7: let the maximizer be to move, on one board able to win with its
    next mark and on another able to force a win in three moves and not
    sooner.  At the same depth on both, a depth the search has: from 0
    on and, added to the number of empty cells of either board, not
    beyond nine (every call the programs make stays within eight, lemma
    [searchCall_depth]), [minimax] returns [9 - depth] on the first board
    and [7 - depth] on the second, so the quicker win scores strictly
    higher. *)
Theorem faster_win_scores_higher
    (maxMark minMark : string) (quick slow : board) (depth : Z) :
  maxMark <> EMPTY -> minMark <> EMPTY -> maxMark <> minMark ->
  winIn1 maxMark minMark quick = true ->
  winIn3 maxMark minMark slow = true ->
  0 <= depth ->
  depth + Z.of_nat (emptyCount quick) <= 9 ->
  depth + Z.of_nat (emptyCount slow) <= 9 ->
  exists scoreQuick scoreSlow,
    minimax maxMark minMark quick depth true = Done (Num scoreQuick, quick) /\
    minimax maxMark minMark slow depth true = Done (Num scoreSlow, slow) /\
    scoreQuick = 9 - depth /\
    scoreSlow = 7 - depth /\
    scoreSlow < scoreQuick.
Proof.
  intros Hmax Hmin Hdiff Hquick Hslow _ Hdq Hds.
  exists (value maxMark minMark quick depth true),
         (value maxMark minMark slow depth true).
  pose proof (winIn1_value maxMark minMark Hmax Hmin quick depth Hquick Hdq) as Eq.
  pose proof (winIn3_value maxMark minMark Hmax Hmin Hdiff slow depth Hslow Hds) as Es.
  split; [now apply minimax_value|].
  split; [now apply minimax_value|].
  rewrite Eq, Es. repeat split; lia.
Qed.

Lemma faster_win_scores_higher_witness :
  exists scoreQuick scoreSlow,
    minimax "O" "X" fastWin 1 true = Done (Num scoreQuick, fastWin) /\
    minimax "O" "X" slowWin 1 true = Done (Num scoreSlow, slowWin) /\
    scoreQuick = 9 - 1 /\
    scoreSlow = 7 - 1 /\
    scoreSlow < scoreQuick.
Proof.
  apply (faster_win_scores_higher "O" "X" fastWin slowWin 1);
    [discriminate|discriminate|discriminate
    |reflexivity|reflexivity
    |lia
    |vm_compute; discriminate|vm_compute; discriminate].
Defined.

(** * Further properties of the engine *)

Section ScoreFacts.

Variables maxMark minMark : string.
Hypothesis maxMark_not_empty : maxMark <> EMPTY.
Hypothesis minMark_not_empty : minMark <> EMPTY.

(** At a consistent depth no score is below [depth - 10]. *)
Lemma value_lower (n : nat) (b : board) (d : Z) (r : bool) :
  (emptyCount b <= n)%nat -> depthFits b d ->
  d - 10 <= value maxMark minMark b d r.
Proof.
  revert b d r. induction n as [|n IH]; intros b d r Hn Hd;
    destruct (nonTerminal_cases maxMark minMark b)
      as [Hnt|[Hw|[[Hw1 Hw2]|(Hw1 & Hw2 & Hf)]]];
    try (rewrite (value_max_wins maxMark minMark) by assumption;
         unfold depthFits in Hd; lia);
    try (rewrite (value_min_wins maxMark minMark) by assumption; lia);
    try (rewrite (value_full maxMark minMark) by assumption;
         unfold depthFits in Hd; lia).
  - apply nonTerminal_true in Hnt. destruct Hnt as (_ & _ & Hf).
    rewrite isBoardFull_moves in Hf. unfold emptyCount in Hn.
    destruct (getAvailableMoves b); [discriminate|simpl in Hn; lia].
  - assert (Hchild : forall m mark r', emptyAt b m -> mark <> EMPTY ->
              d + 1 - 10 <= value maxMark minMark (place b m mark) (d + 1) r').
    { intros m mark r' Hm Hmark. apply IH.
      - pose proof (emptyCount_place b m mark Hm Hmark). lia.
      - now apply depthFits_place. }
    destruct r.
    + destruct (value_maximizing maxMark minMark maxMark_not_empty
                  minMark_not_empty b d Hnt) as [_ (m & Hm & ->)].
      specialize (Hchild m maxMark false Hm maxMark_not_empty). lia.
    + destruct (value_minimizing maxMark minMark maxMark_not_empty
                  minMark_not_empty b d Hnt) as [_ (m & Hm & ->)].
      specialize (Hchild m minMark true Hm minMark_not_empty). lia.
Qed.

(** What [makeComputerMove] does on a board that is not full. *)
Lemma makeComputerMove_place (b : board) :
  isBoardFull b = false ->
  exists m, emptyAt b m /\
            makeComputerMove maxMark minMark b = Done (place b m maxMark).
Proof.
  intros Hfull. apply isBoardFull_false in Hfull.
  destruct (selectMove_first_max maxMark minMark maxMark_not_empty
              minMark_not_empty b Hfull)
    as (pre & m & post & Hsplit & Hsel & _ & _).
  assert (Hempty : emptyAt b m).
  { apply getAvailableMoves_In. rewrite Hsplit.
    apply in_or_app; right; now left. }
  exists m. split; [exact Hempty|].
  unfold makeComputerMove. rewrite Hsel. now apply setCell_empty.
Qed.

End ScoreFacts.

(** X1: [isBoardFull] returns true exactly when none of the nine cells
    holds the empty string, and false exactly when some cell does. *)
Theorem isBoardFull_no_empty_cell (b : board) :
  (isBoardFull b = false <->
   exists r c, 0 <= r <= 2 /\ 0 <= c <= 2 /\ cellAt b r c = Some EMPTY) /\
  (isBoardFull b = true <->
   forall r c, 0 <= r <= 2 -> 0 <= c <= 2 -> cellAt b r c <> Some EMPTY).
Proof.
  assert (Hfalse : isBoardFull b = false <->
            exists r c, 0 <= r <= 2 /\ 0 <= c <= 2 /\ cellAt b r c = Some EMPTY).
  { rewrite isBoardFull_false. split.
    - intros Hne. destruct (getAvailableMoves b) as [|m rest] eqn:E; [congruence|].
      assert (Hm : emptyAt b m) by (apply getAvailableMoves_In; rewrite E; now left).
      destruct (emptyAt_inGrid b m Hm) as [Hr Hc].
      exists (i m), (j m). auto.
    - intros (r & c & _ & _ & Hcell) Hnil.
      assert (Hin : In (Move r c) (getAvailableMoves b))
        by (apply getAvailableMoves_In; exact Hcell).
      rewrite Hnil in Hin. destruct Hin. }
  split; [exact Hfalse|].
  split.
  - intros Hfull r c Hr Hc Hcell.
    assert (isBoardFull b = false) by (apply Hfalse; eauto).
    congruence.
  - intros Hall. destruct (isBoardFull b) eqn:E; [reflexivity|].
    destruct (proj1 Hfalse eq_refl) as (r & c & Hr & Hc & Hcell).
    exfalso. now apply (Hall r c).
Qed.

(** X2: on a full board [makeComputerMove] finds no move, keeps its
    initial [{ i: -1, j: -1 }] and its final assignment through
    [board[-1]] raises a [TypeError]. *)
Theorem makeComputerMove_full_board_throws (maxMark minMark : string) (b : board) :
  isBoardFull b = true ->
  bestMove maxMark minMark b = Done sentinel /\
  makeComputerMove maxMark minMark b = TypeError.
Proof.
  intros Hfull. rewrite isBoardFull_moves in Hfull.
  unfold bestMove, makeComputerMove, selectMove.
  destruct (getAvailableMoves b); [|discriminate].
  split; reflexivity.
Qed.

Lemma makeComputerMove_full_board_throws_witness :
  isBoardFull drawnBoard = true /\
  bestMove "O" "X" drawnBoard = Done sentinel /\
  makeComputerMove "O" "X" drawnBoard = TypeError.
Proof.
  split; [reflexivity|].
  apply (makeComputerMove_full_board_throws "O" "X" drawnBoard). reflexivity.
Defined.

(** X3: when some legal move completes a line of the computer,
    [makeComputerMove] plays such a move, the first of them in row-major
    order, and the board it leaves is won by the computer. *)
Theorem makeComputerMove_takes_the_win (maxMark minMark : string) (b : board) :
  maxMark <> EMPTY -> minMark <> EMPTY ->
  winsNow maxMark b = true ->
  exists m,
    bestMove maxMark minMark b = Done m /\
    makeComputerMove maxMark minMark b = Done (place b m maxMark) /\
    emptyAt b m /\
    checkWinner (place b m maxMark) maxMark = true /\
    (forall x, emptyAt b x -> checkWinner (place b x maxMark) maxMark = true ->
       x = m \/ rowMajor_lt m x).
Proof.
  intros Hmax Hmin Hnow.
  apply (winsNow_true maxMark) in Hnow. destruct Hnow as (w & Hw & Hwin).
  assert (Hne : getAvailableMoves b <> []).
  { intros Hnil. apply getAvailableMoves_In in Hw. rewrite Hnil in Hw. destruct Hw. }
  destruct (selectMove_first_max maxMark minMark Hmax Hmin b Hne)
    as (pre & m & post & Hsplit & Hsel & Hpre & Hpost).
  assert (Hm : emptyAt b m).
  { apply getAvailableMoves_In. rewrite Hsplit. apply in_or_app; right; now left. }
  assert (Hscore : forall x, emptyAt b x ->
            checkWinner (place b x maxMark) maxMark = true ->
            moveScore maxMark minMark b x = 10).
  { intros x Hx Hxw. unfold moveScore.
    rewrite (value_max_wins maxMark minMark Hmax Hmin) by assumption. lia. }
  assert (Hfits : forall x, emptyAt b x -> depthFits (place b x maxMark) 0).
  { intros x Hx. unfold depthFits.
    pose proof (emptyCount_place b x maxMark Hx Hmax).
    pose proof (emptyCount_le_9 b). lia. }
  assert (Hbound : forall x, emptyAt b x ->
            moveScore maxMark minMark b x <= 10 /\
            (checkWinner (place b x maxMark) maxMark = false ->
             moveScore maxMark minMark b x <= 9)).
  { intros x Hx. unfold moveScore.
    destruct (value_upper maxMark minMark Hmax Hmin
                (emptyCount (place b x maxMark)) (place b x maxMark) 0 false
                (le_n _) (Hfits x Hx)) as [H10 H9].
    split; [lia|]. intros Hno. specialize (H9 Hno). lia. }
  assert (Hbest : moveScore maxMark minMark b m = 10).
  { pose proof (Hscore w Hw Hwin) as Hw10.
    destruct (Hbound m Hm) as [Hle _].
    assert (Hin : In w (pre ++ m :: post))
      by (rewrite <- Hsplit; now apply getAvailableMoves_In).
    apply in_app_or in Hin. destruct Hin as [Hin|[Hin|Hin]].
    - specialize (Hpre w Hin). lia.
    - subst w. exact Hw10.
    - specialize (Hpost w Hin). lia. }
  exists m.
  split; [unfold bestMove; now rewrite Hsel|].
  split; [unfold makeComputerMove; rewrite Hsel; now apply setCell_empty|].
  split; [exact Hm|].
  split.
  - destruct (checkWinner (place b m maxMark) maxMark) eqn:E; [reflexivity|].
    destruct (Hbound m Hm) as [_ H9]. specialize (H9 E). lia.
  - intros x Hx Hxw. pose proof (Hscore x Hx Hxw) as Hx10.
    assert (Hin : In x (pre ++ m :: post))
      by (rewrite <- Hsplit; now apply getAvailableMoves_In).
    apply in_app_or in Hin. destruct Hin as [Hin|[Hin|Hin]].
    + specialize (Hpre x Hin). lia.
    + left. now symmetry.
    + right. apply (sorted_after pre post m); [|exact Hin].
      rewrite <- Hsplit. apply getAvailableMoves_sorted.
Qed.

Lemma makeComputerMove_takes_the_win_witness :
  winsNow "O" rowOpen = true /\
  exists m,
    bestMove "O" "X" rowOpen = Done m /\
    makeComputerMove "O" "X" rowOpen = Done (place rowOpen m "O") /\
    emptyAt rowOpen m /\
    checkWinner (place rowOpen m "O") "O" = true /\
    (forall x, emptyAt rowOpen x -> checkWinner (place rowOpen x "O") "O" = true ->
       x = m \/ rowMajor_lt m x).
Proof.
  split; [reflexivity|].
  apply (makeComputerMove_takes_the_win "O" "X" rowOpen);
    [discriminate|discriminate|reflexivity].
Defined.

(** X4: at a depth that, added to the number of empty cells, does not
    exceed nine, [minimax] returns an integer between [depth - 10] and
    [10 - depth]; the scores [makeComputerMove] compares, computed at
    depth 0 on a board with a mark added, lie between -10 and 10. *)
Theorem minimax_score_bounds
    (maxMark minMark : string) (b : board) (depth : Z) (isMaximizing : bool) :
  maxMark <> EMPTY -> minMark <> EMPTY ->
  depth + Z.of_nat (emptyCount b) <= 9 ->
  (exists score,
     minimax maxMark minMark b depth isMaximizing = Done (Num score, b) /\
     depth - 10 <= score <= 10 - depth) /\
  (forall m, emptyAt b m ->
     exists score,
       minimax maxMark minMark (place b m maxMark) 0 false
       = Done (Num score, place b m maxMark) /\
       -10 <= score <= 10).
Proof.
  intros Hmax Hmin Hfits. split.
  - exists (value maxMark minMark b depth isMaximizing).
    split; [now apply minimax_value|].
    pose proof (value_lower maxMark minMark Hmax Hmin (emptyCount b) b depth
                  isMaximizing (le_n _) Hfits).
    destruct (value_upper maxMark minMark Hmax Hmin (emptyCount b) b depth
                isMaximizing (le_n _) Hfits) as [Hup _].
    lia.
  - intros m Hm.
    exists (value maxMark minMark (place b m maxMark) 0 false).
    split; [now apply minimax_value|].
    assert (Hf : depthFits (place b m maxMark) 0).
    { unfold depthFits. pose proof (emptyCount_place b m maxMark Hm Hmax).
      pose proof (emptyCount_le_9 b). lia. }
    pose proof (value_lower maxMark minMark Hmax Hmin _ _ 0 false (le_n _) Hf).
    destruct (value_upper maxMark minMark Hmax Hmin _ _ 0 false (le_n _) Hf)
      as [Hup _].
    lia.
Qed.

Lemma minimax_score_bounds_witness :
  (exists score,
     minimax "O" "X" rowOpen 2 true = Done (Num score, rowOpen) /\
     2 - 10 <= score <= 10 - 2) /\
  (forall m, emptyAt rowOpen m ->
     exists score,
       minimax "O" "X" (place rowOpen m "O") 0 false
       = Done (Num score, place rowOpen m "O") /\
       -10 <= score <= 10).
Proof.
  apply (minimax_score_bounds "O" "X" rowOpen 2 true);
    [discriminate|discriminate|vm_compute; discriminate].
Defined.

(** * The console game *)

(** X5: for a position from 1 to 9, [getPositionIndices] gives a row and
    a column inside the grid with [position = 3 * row + col + 1], the
    cell is the one at that place of the row-major enumeration, and no
    other position from 1 to 9 gives the same cell. *)
Theorem getPositionIndices_grid (position : Z) :
  1 <= position <= 9 ->
  exists r c,
    getPositionIndices (IsNum (Num position)) = (IsNum (Num r), IsNum (Num c)) /\
    0 <= r <= 2 /\ 0 <= c <= 2 /\
    position = 3 * r + c + 1 /\
    nth_error allCells (Z.to_nat (position - 1)) = Some (Move r c) /\
    (forall other, 1 <= other <= 9 ->
       getPositionIndices (IsNum (Num other)) = (IsNum (Num r), IsNum (Num c)) ->
       other = position).
Proof.
  intros Hp.
  assert (Hcases : position = 1 \/ position = 2 \/ position = 3 \/ position = 4
                   \/ position = 5 \/ position = 6 \/ position = 7
                   \/ position = 8 \/ position = 9) by lia.
  exists ((position - 1) / 3), (Z.rem (position - 1) 3).
  split; [reflexivity|].
  assert (Hother : forall other, 1 <= other <= 9 ->
            (other - 1) / 3 = (position - 1) / 3 ->
            Z.rem (other - 1) 3 = Z.rem (position - 1) 3 -> other = position).
  { intros other Ho Hq Hr.
    rewrite !Z.rem_mod_nonneg in Hr by lia.
    pose proof (Z.div_mod (other - 1) 3 ltac:(lia)).
    pose proof (Z.div_mod (position - 1) 3 ltac:(lia)). lia. }
  repeat (destruct Hcases as [->|Hcases]); try subst position;
    (repeat split; try reflexivity; try (cbv; congruence);
     intros other Ho Heq; injection Heq as Hq Hr; now apply Hother).
Qed.

Lemma getPositionIndices_grid_witness :
  1 <= 6 <= 9 /\
  exists r c,
    getPositionIndices (IsNum (Num 6)) = (IsNum (Num r), IsNum (Num c)) /\
    0 <= r <= 2 /\ 0 <= c <= 2 /\
    6 = 3 * r + c + 1 /\
    nth_error allCells (Z.to_nat (6 - 1)) = Some (Move r c) /\
    (forall other, 1 <= other <= 9 ->
       getPositionIndices (IsNum (Num other)) = (IsNum (Num r), IsNum (Num c)) ->
       other = 6).
Proof.
  split; [lia|]. apply (getPositionIndices_grid 6). lia.
Defined.

(** ** Writing to the terminal *)

Lemma io_bind_done {A B : Type} (log : list event) (a : A) (k : A -> io B) :
  io_bind (log, Done a) k = (log ++ fst (k a), snd (k a)).
Proof. reflexivity. Qed.

Lemma io_bind_emit {B : Type} (e : event) (k : unit -> io B) :
  io_bind (emit e) k = (e :: fst (k tt), snd (k tt)).
Proof. reflexivity. Qed.

Lemma io_bind_lift {A B : Type} (o : outcome A) (k : A -> io B) :
  io_bind (lift o) k
  = match o with
    | Done a => k a
    | TypeError => ([], TypeError)
    | OutOfFuel => ([], OutOfFuel)
    end.
Proof. destruct o as [a| |]; try reflexivity. unfold io_bind, lift; simpl.
  now destruct (k a). Qed.

Lemma io_bind_ret {A B : Type} (a : A) (k : A -> io B) :
  io_bind (io_ret a) k = k a.
Proof. unfold io_bind, io_ret; simpl. now destruct (k a). Qed.

(** The callback is one answer followed by what [again] does. *)
Lemma onAnswer_oneAnswer (again : board -> io (board * ending))
    (b : board) (position : numberOrNaN) :
  onAnswer again b position = io_bind (oneAnswer b position) (thenPlay again).
Proof.
  unfold oneAnswer, onAnswer.
  destruct (js_ltb position (IsNum (Num 1)) || js_gtb position (IsNum (Num 9))).
  { unfold io_bind, emit, io_ret, thenPlay; simpl. now destruct (again b). }
  destruct (getPositionIndices position) as [r c].
  rewrite ?io_bind_lift.
  destruct (readCell b r c) as [[[|ch s]|]| |]; cbv beta iota; try reflexivity;
    try (unfold io_bind, emit, io_ret, thenPlay; simpl; now destruct (again b)).
  rewrite ?io_bind_lift.
  destruct (writeCell b r c "X") as [b1| |]; cbv beta iota; try reflexivity.
  destruct (checkWinner b1 "X"); [reflexivity|].
  destruct (isBoardFull b1); [reflexivity|].
  rewrite ?io_bind_lift.
  destruct (Console.makeComputerMove b1) as [b2| |]; cbv beta iota; try reflexivity.
  destruct (checkWinner b2 "O"); [reflexivity|].
  destruct (isBoardFull b2); [reflexivity|].
  rewrite io_bind_ret. reflexivity.
Qed.

(** ** Runs of the game *)

Lemma neverPlayerWins_app (l1 l2 : list event) :
  neverPlayerWins (l1 ++ l2) = neverPlayerWins l1 && neverPlayerWins l2.
Proof. apply forallb_app. Qed.

Lemma neverPlayerWins_In (log : list event) :
  neverPlayerWins log = true -> ~ In (Print "Player wins!") log.
Proof.
  unfold neverPlayerWins. rewrite forallb_forall. intros H Hin.
  specialize (H _ Hin). discriminate.
Qed.

Lemma board_eqb_eq (b b' : board) : board_eqb b b' = true -> b = b'.
Proof.
  destruct b as [[x00 x01 x02] [x10 x11 x12] [x20 x21 x22]].
  destruct b' as [[y00 y01 y02] [y10 y11 y12] [y20 y21 y22]].
  unfold board_eqb; simpl. rewrite !andb_true_iff, !String.eqb_eq.
  intros H. decompose [and] H. now subst.
Qed.

Lemma playGame_nil (b : board) :
  playGame [] b = (fst (printBoard b) ++ [askPosition], Done (b, Waiting)).
Proof. reflexivity. Qed.

Lemma playGame_cons (position : numberOrNaN) (rest : list numberOrNaN) (b : board) :
  playGame (position :: rest) b
  = (fst (printBoard b) ++ askPosition :: fst (onAnswer (playGame rest) b position),
     snd (onAnswer (playGame rest) b position)).
Proof. reflexivity. Qed.

Lemma onAnswer_NaN (again : board -> io (board * ending)) (b : board) :
  onAnswer again b NaN = ([], TypeError).
Proof. reflexivity. Qed.

Lemma onAnswer_out_of_range (again : board -> io (board * ending))
    (b : board) (n : number) :
  outOfRange n ->
  onAnswer again b (IsNum n)
  = (invalidPosition :: fst (again b), snd (again b)).
Proof.
  intros Hn. unfold onAnswer.
  assert (Htest : js_ltb (IsNum n) (IsNum (Num 1)) || js_gtb (IsNum n) (IsNum (Num 9))
                  = true).
  { destruct n as [|z|]; try reflexivity.
    unfold js_ltb, js_gtb, number_gtb; simpl. simpl in Hn.
    destruct (1 <=? z) eqn:E1; [|reflexivity].
    destruct (z <=? 9) eqn:E9; [|reflexivity].
    apply Z.leb_le in E1, E9. lia. }
  rewrite Htest. reflexivity.
Qed.

Lemma number_range (n : number) :
  outOfRange n \/ exists z, n = Num z /\ In z positions.
Proof.
  destruct n as [|z|]; simpl; auto.
  destruct (Z_lt_le_dec z 1); [auto|]. destruct (Z_lt_le_dec 9 z); [auto|].
  right. exists z. split; [reflexivity|].
  unfold positions; simpl. lia.
Qed.

Lemma unbeatenFrom_inv (fuel : nat) (b : board) :
  unbeatenFrom fuel b = true ->
  exists fuel',
    fuel = S fuel' /\
    neverPlayerWins (fst (printBoard b)) = true /\
    (forall p, In p positions ->
       match oneAnswer b (IsNum (Num p)) with
       | (log, Done (b', Waiting)) =>
           neverPlayerWins log
           && (if board_eqb b' b then true else unbeatenFrom fuel' b')
       | (log, Done (_, Closed)) => neverPlayerWins log
       | (_, _) => false
       end = true).
Proof.
  destruct fuel as [|fuel']; [discriminate|].
  intros H. exists fuel'. split; [reflexivity|].
  change (neverPlayerWins (fst (printBoard b))
          && forallb (fun p =>
               match oneAnswer b (IsNum (Num p)) with
               | (log, Done (b', Waiting)) =>
                   neverPlayerWins log
                   && (if board_eqb b' b then true else unbeatenFrom fuel' b')
               | (log, Done (_, Closed)) => neverPlayerWins log
               | (_, _) => false
               end) positions = true) in H.
  apply andb_true_iff in H. destruct H as [Hprint Hall].
  split; [exact Hprint|]. now apply forallb_forall.
Qed.

(** From a board that passed the exploration, no run declares the human
    the winner, and a run throws only on an answer that is not a number. *)
Lemma playGame_unbeaten (answers : list numberOrNaN) :
  forall fuel b,
    unbeatenFrom fuel b = true ->
    neverPlayerWins (fst (playGame answers b)) = true /\
    (~ In NaN answers -> exists b' e, snd (playGame answers b) = Done (b', e)).
Proof.
  induction answers as [|position rest IH]; intros fuel b Hsafe;
    destruct (unbeatenFrom_inv fuel b Hsafe) as (fuel' & -> & Hprint & Hall).
  - rewrite playGame_nil. cbn [fst snd].
    rewrite neverPlayerWins_app, Hprint. split; [reflexivity|eauto].
  - rewrite playGame_cons. cbn [fst snd].
    rewrite neverPlayerWins_app, Hprint.
    change (neverPlayerWins (askPosition :: ?l)) with (neverPlayerWins l).
    rewrite andb_true_l.
    destruct position as [|n].
    + rewrite onAnswer_NaN. split; [reflexivity|].
      intros Hno. exfalso. apply Hno. now left.
    + destruct (number_range n) as [Hout|(z & -> & Hz)].
      * rewrite (onAnswer_out_of_range _ b n Hout). cbn [fst snd].
        change (neverPlayerWins (invalidPosition :: ?l)) with (neverPlayerWins l).
        destruct (IH (S fuel') b Hsafe) as [Hlog Hdone].
        split; [exact Hlog|]. intros Hno. apply Hdone.
        intros Hin. apply Hno. now right.
      * specialize (Hall z Hz).
        rewrite onAnswer_oneAnswer.
        destruct (oneAnswer b (IsNum (Num z))) as [log [[b' [|]]| |]];
          try discriminate.
        -- rewrite io_bind_done. unfold thenPlay. cbn [fst snd].
           rewrite neverPlayerWins_app, Hall.
           split; [reflexivity|]. intros _. exists b', Closed. reflexivity.
        -- apply andb_true_iff in Hall. destruct Hall as [Hlog Hnext].
           rewrite io_bind_done. unfold thenPlay. cbn [fst snd].
           rewrite neverPlayerWins_app, Hlog, andb_true_l.
           assert (Hrest : neverPlayerWins (fst (playGame rest b')) = true /\
                           (~ In NaN rest ->
                            exists b'' e, snd (playGame rest b') = Done (b'', e))).
           { destruct (board_eqb b' b) eqn:E.
             - apply board_eqb_eq in E. subst b'. exact (IH (S fuel') b Hsafe).
             - exact (IH fuel' b' Hnext). }
           destruct Hrest as [Hlog' Hdone]. split; [exact Hlog'|].
           intros Hno. apply Hdone. intros Hin. apply Hno. now right.
Qed.

(** ** One turn of the console game *)

Lemma cellOf_inGrid (z : Z) : In z positions -> inGrid (cellOf z).
Proof.
  unfold positions; simpl. intros H.
  repeat (destruct H as [<-|H]; [cbv; repeat split; discriminate|]). destruct H.
Qed.

Lemma readCell_inGrid (b : board) (m : move) :
  inGrid m ->
  readCell b (IsNum (Num (i m))) (IsNum (Num (j m))) = Done (cellAt b (i m) (j m)).
Proof.
  intros Hm. apply inGrid_allCells in Hm. unfold allCells in Hm; simpl in Hm.
  repeat (destruct Hm as [<-|Hm]; [reflexivity|]). destruct Hm.
Qed.

Lemma in_range_test (z : Z) :
  In z positions ->
  js_ltb (IsNum (Num z)) (IsNum (Num 1)) || js_gtb (IsNum (Num z)) (IsNum (Num 9))
  = false.
Proof.
  unfold positions; simpl. intros H.
  repeat (destruct H as [<-|H]; [reflexivity|]). destruct H.
Qed.

Lemma Console_makeComputerMove_place (b : board) :
  isBoardFull b = false ->
  exists m, emptyAt b m /\ Console.makeComputerMove b = Done (place b m "O").
Proof.
  intros Hfull.
  apply (makeComputerMove_place "O" "X"); [discriminate|discriminate|exact Hfull].
Qed.

(** The callback on an answer from 1 to 9 makes a turn. *)
Lemma oneAnswer_turn (b : board) (z : Z) :
  In z positions ->
  exists log b' e,
    oneAnswer b (IsNum (Num z)) = (log, Done (b', e)) /\
    turn b (cellOf z) log b' e.
Proof.
  intros Hz. unfold oneAnswer, onAnswer.
  rewrite (in_range_test z Hz).
  change (getPositionIndices (IsNum (Num z)))
    with (IsNum (Num (i (cellOf z))), IsNum (Num (j (cellOf z)))).
  cbv beta iota.
  rewrite (readCell_inGrid b (cellOf z) (cellOf_inGrid z Hz)).
  rewrite io_bind_lift.
  destruct (cellAt b (i (cellOf z)) (j (cellOf z))) as [[|ch s]|] eqn:Hcell.
  - assert (Hempty : emptyAt b (cellOf z)) by exact Hcell.
    change (writeCell b (IsNum (Num (i (cellOf z)))) (IsNum (Num (j (cellOf z)))) "X")
      with (setCell b (i (cellOf z)) (j (cellOf z)) "X").
    rewrite (setCell_empty b (cellOf z) "X" Hempty), io_bind_lift.
    destruct (checkWinner (place b (cellOf z) "X") "X") eqn:Hx.
    { do 3 eexists. split; [reflexivity|]. now apply turn_player_wins. }
    destruct (isBoardFull (place b (cellOf z) "X")) eqn:Hfull.
    { do 3 eexists. split; [reflexivity|]. now apply turn_full_after_player. }
    destruct (Console_makeComputerMove_place _ Hfull) as (m & Hm & Hmove).
    rewrite Hmove, io_bind_lift.
    destruct (checkWinner (place (place b (cellOf z) "X") m "O") "O") eqn:Ho.
    { do 3 eexists. split; [reflexivity|]. now apply (turn_computer_wins b _ m). }
    destruct (isBoardFull (place (place b (cellOf z) "X") m "O")) eqn:Hfull2.
    { do 3 eexists. split; [reflexivity|].
      now apply (turn_full_after_computer b _ m). }
    do 3 eexists. split; [reflexivity|]. now apply (turn_goes_on b _ m).
  - do 3 eexists. split; [reflexivity|]. apply turn_occupied.
    unfold emptyAt. rewrite Hcell. discriminate.
  - do 3 eexists. split; [reflexivity|]. apply turn_occupied.
    unfold emptyAt. rewrite Hcell. discriminate.
Qed.

(** The three ways [playGame] treats an answer. *)
Lemma playGame_answer (position : numberOrNaN) (rest : list numberOrNaN) (b : board) :
  (position = NaN /\
   playGame (position :: rest) b = (fst (printBoard b) ++ [askPosition], TypeError))
  \/ (exists n, position = IsNum n /\ outOfRange n /\
      playGame (position :: rest) b
      = (fst (printBoard b) ++ askPosition :: invalidPosition :: fst (playGame rest b),
         snd (playGame rest b)))
  \/ (exists z log b' e,
        position = IsNum (Num z) /\ In z positions /\
        turn b (cellOf z) log b' e /\
        playGame (position :: rest) b
        = (fst (printBoard b) ++ askPosition :: log
             ++ fst (thenPlay (playGame rest) (b', e)),
           snd (thenPlay (playGame rest) (b', e)))).
Proof.
  rewrite playGame_cons. destruct position as [|n].
  - left. split; reflexivity.
  - right. destruct (number_range n) as [Hout|(z & -> & Hz)].
    + left. exists n. split; [reflexivity|]. split; [exact Hout|].
      now rewrite (onAnswer_out_of_range _ b n Hout).
    + right. destruct (oneAnswer_turn b z Hz) as (log & b' & e & Hone & Hturn).
      exists z, log, b', e. split; [reflexivity|]. split; [exact Hz|].
      split; [exact Hturn|].
      rewrite onAnswer_oneAnswer, Hone, io_bind_done. reflexivity.
Qed.

(** ** What the console game guarantees *)

Lemma unbeaten_from_the_start : unbeatenFrom 5 emptyBoard = true.
Proof. vm_compute. reflexivity. Qed.

(** X6: in the console game started on the empty board, whatever the
    user answers, the line [Player wins!] is never printed. *)
Theorem playGame_never_player_wins (answers : list numberOrNaN) :
  ~ In (Print "Player wins!") (fst (playGame answers emptyBoard)).
Proof.
  apply neverPlayerWins_In.
  destruct (playGame_unbeaten answers 5 emptyBoard unbeaten_from_the_start)
    as [Hlog _].
  exact Hlog.
Qed.

(** X7: in the console game started on the empty board, as long as every
    answer is a number the callback never throws: the run ends closed or
    waiting for the next answer. *)
Theorem playGame_numbers_never_throw (answers : list numberOrNaN) :
  ~ In NaN answers ->
  exists b e, snd (playGame answers emptyBoard) = Done (b, e).
Proof.
  intros Hnumbers.
  destruct (playGame_unbeaten answers 5 emptyBoard unbeaten_from_the_start)
    as [_ Hdone].
  exact (Hdone Hnumbers).
Qed.

Lemma playGame_numbers_never_throw_witness :
  ~ In NaN [IsNum (Num 5); IsNum (Num 5); IsNum Infinity; IsNum (Num (-3))] /\
  exists b e,
    snd (playGame [IsNum (Num 5); IsNum (Num 5); IsNum Infinity; IsNum (Num (-3))]
           emptyBoard) = Done (b, e).
Proof.
  assert (H : ~ In NaN [IsNum (Num 5); IsNum (Num 5); IsNum Infinity;
                        IsNum (Num (-3))]).
  { simpl. intros [H|[H|[H|[H|[]]]]]; discriminate H. }
  split; [exact H|].
  apply (playGame_numbers_never_throw _ H).
Defined.

(** X8: the range test of the callback rejects every number outside 1..9,
    infinite ones included: it prints the invalid-position line, leaves
    the board as it is and asks again.  It does not reject [NaN]: the
    two comparisons are false, the indices are [NaN], and reading
    [board[NaN][NaN]] throws a [TypeError] before anything is printed. *)
Theorem playGame_range_test (rest : list numberOrNaN) (b : board) :
  (forall n, outOfRange n ->
     playGame (IsNum n :: rest) b
     = (fst (printBoard b)
          ++ Ask "Enter position (1-9): "
          :: Print "Invalid position, please enter a number between 1 and 9."
          :: fst (playGame rest b),
        snd (playGame rest b))) /\
  playGame (NaN :: rest) b
  = (fst (printBoard b) ++ [Ask "Enter position (1-9): "], TypeError).
Proof.
  split.
  - intros n Hn. rewrite playGame_cons.
    now rewrite (onAnswer_out_of_range _ b n Hn).
  - rewrite playGame_cons, onAnswer_NaN. reflexivity.
Qed.

Lemma no_line_after_place (b : board) (m : move) (v player : string) :
  emptyAt b m -> v <> player ->
  checkWinner b player = false -> checkWinner (place b m v) player = false.
Proof.
  intros Hm Hv Hno.
  destruct (checkWinner (place b m v) player) eqn:E; [|reflexivity].
  apply checkWinner_place_other in E; auto. congruence.
Qed.

Lemma turn_goes_on_noWinner (b : board) (h : move) (log : list event) (b' : board) :
  noWinner b -> turn b h log b' Waiting -> noWinner b'.
Proof.
  intros [Hx Ho] Ht. inversion Ht; subst; [split; assumption|].
  split; [|assumption].
  apply no_line_after_place; [assumption|discriminate|assumption].
Qed.

Lemma turn_closed_truthful (b : board) (h : move) (log : list event) (b' : board) :
  noWinner b -> turn b h log b' Closed ->
  exists verdict, log = [Print verdict; CloseInput] /\ truthful verdict b'.
Proof.
  intros [Hx Ho] Ht. inversion Ht; subst.
  - exists "Player wins!"%string. split; [reflexivity|]. left.
    split; [reflexivity|]. split; [assumption|].
    apply no_line_after_place; [assumption|discriminate|assumption].
  - exists "It's a tie!"%string. split; [reflexivity|]. right; right.
    split; [reflexivity|]. split; [assumption|]. split; [assumption|].
    apply no_line_after_place; [assumption|discriminate|assumption].
  - exists "Computer wins!"%string. split; [reflexivity|]. right; left.
    split; [reflexivity|]. split; [assumption|].
    apply no_line_after_place; [assumption|discriminate|assumption].
  - exists "It's a tie!"%string. split; [reflexivity|]. right; right.
    split; [reflexivity|]. split; [assumption|]. split; [|assumption].
    apply no_line_after_place; [assumption|discriminate|assumption].
Qed.

(** X9: when a run of the console game, started on a board without a
    line, closes the input, the last thing it printed is one of the three
    verdicts, and the verdict is true of the final board: [Player wins!]
    with a line of X and none of O, [Computer wins!] with a line of O and
    none of X, [It's a tie!] with a full board and no line. *)
Theorem playGame_verdict_is_true
    (answers : list numberOrNaN) (b final : board) :
  checkWinner b "X" = false -> checkWinner b "O" = false ->
  snd (playGame answers b) = Done (final, Closed) ->
  exists before verdict,
    fst (playGame answers b) = before ++ [Print verdict; CloseInput] /\
    truthful verdict final.
Proof.
  intros Hx Ho. assert (Hno : noWinner b) by (split; assumption). clear Hx Ho.
  revert b Hno. induction answers as [|position rest IH]; intros b Hno Hclosed.
  - rewrite playGame_nil in Hclosed. discriminate.
  - destruct (playGame_answer position rest b)
      as [[_ Heq]|[(n & _ & _ & Heq)|(z & log & b' & e & _ & _ & Hturn & Heq)]];
      rewrite Heq in Hclosed |- *; cbn [fst snd] in Hclosed |- *.
    + discriminate.
    + destruct (IH b Hno Hclosed) as (before & verdict & Hlog & Htrue).
      exists (fst (printBoard b) ++ askPosition :: invalidPosition :: before), verdict.
      split; [|exact Htrue]. rewrite Hlog.
      rewrite <- app_assoc. reflexivity.
    + destruct e; unfold thenPlay in Hclosed |- *; cbn [fst snd] in Hclosed |- *.
      * injection Hclosed as <-.
        destruct (turn_closed_truthful b _ log b' Hno Hturn)
          as (verdict & -> & Htrue).
        exists (fst (printBoard b) ++ [askPosition]), verdict.
        split; [|exact Htrue]. rewrite <- app_assoc. reflexivity.
      * pose proof (turn_goes_on_noWinner b _ log b' Hno Hturn) as Hno'.
        destruct (IH b' Hno' Hclosed) as (before & verdict & Hlog & Htrue).
        exists (fst (printBoard b) ++ askPosition :: log ++ before), verdict.
        split; [|exact Htrue]. rewrite Hlog.
        rewrite <- app_assoc, <- app_comm_cons, <- app_assoc. reflexivity.
Qed.

Lemma playGame_verdict_is_true_witness :
  checkWinner emptyBoard "X" = false /\ checkWinner emptyBoard "O" = false /\
  exists before verdict,
    fst (playGame [IsNum (Num 1); IsNum (Num 2); IsNum (Num 4)] emptyBoard)
    = before ++ [Print verdict; CloseInput] /\
    truthful verdict
      (Board (Row "X" "X" "O") (Row "X" "O" EMPTY) (Row "O" EMPTY EMPTY)).
Proof.
  split; [reflexivity|]. split; [reflexivity|].
  apply (playGame_verdict_is_true
           [IsNum (Num 1); IsNum (Num 2); IsNum (Num 4)] emptyBoard);
    vm_compute; reflexivity.
Defined.

Lemma onlyFills_refl (b : board) : onlyFills b b.
Proof. intros r c. now left. Qed.

Lemma onlyFills_trans (b1 b2 b3 : board) :
  onlyFills b1 b2 -> onlyFills b2 b3 -> onlyFills b1 b3.
Proof.
  intros H12 H23 r c.
  destruct (H23 r c) as [E23|[E2 E3]]; destruct (H12 r c) as [E12|[E1 E2']].
  - left. congruence.
  - right. split; [exact E1|]. rewrite E23. exact E2'.
  - right. split; [congruence|exact E3].
  - exfalso. unfold EMPTY in *. destruct E2' as [E|E]; rewrite E in E2; discriminate.
Qed.

Lemma onlyFills_place (b : board) (m : move) (v : string) :
  emptyAt b m -> v = "X"%string \/ v = "O"%string -> onlyFills b (place b m v).
Proof.
  intros Hm Hv r c.
  destruct (Z.eq_dec r (i m)) as [->|Hr]; [destruct (Z.eq_dec c (j m)) as [->|Hc]|].
  - right. split; [exact Hm|]. rewrite (cellAt_place b m v Hm).
    destruct Hv as [->| ->]; auto.
  - left. apply cellAt_place_other. congruence.
  - left. apply cellAt_place_other. congruence.
Qed.

Lemma turn_onlyFills (b : board) (h : move) (log : list event) (b' : board) (e : ending) :
  turn b h log b' e -> onlyFills b b'.
Proof.
  intros Ht. inversion Ht; subst;
    try apply onlyFills_refl;
    try (apply onlyFills_place; auto; fail);
    (apply onlyFills_trans with (place b h "X"); apply onlyFills_place; auto).
Qed.

(** X10: a run of the console game only ever fills cells that were
    empty, with X or with O: every cell of the board it leaves either is
    as it was in the board the run started on, or was empty there and
    now holds X or O.  No mark is overwritten or removed. *)
Theorem playGame_only_fills_empty_cells
    (answers : list numberOrNaN) (b final : board) (e : ending) :
  snd (playGame answers b) = Done (final, e) ->
  forall r c,
    cellAt final r c = cellAt b r c
    \/ (cellAt b r c = Some EMPTY
        /\ (cellAt final r c = Some "X"%string
            \/ cellAt final r c = Some "O"%string)).
Proof.
  change (snd (playGame answers b) = Done (final, e) -> onlyFills b final).
  revert b. induction answers as [|position rest IH]; intros b Hrun.
  - rewrite playGame_nil in Hrun. injection Hrun as <- _. apply onlyFills_refl.
  - destruct (playGame_answer position rest b)
      as [[_ Heq]|[(n & _ & _ & Heq)|(z & log & b' & e' & _ & _ & Hturn & Heq)]];
      rewrite Heq in Hrun; cbn [fst snd] in Hrun.
    + discriminate.
    + now apply IH.
    + apply onlyFills_trans with b'; [now apply turn_onlyFills with (cellOf z) log e'|].
      destruct e'; unfold thenPlay in Hrun; cbn [fst snd] in Hrun.
      * injection Hrun as <- _. apply onlyFills_refl.
      * now apply IH.
Qed.

Lemma playGame_only_fills_empty_cells_witness :
  snd (playGame [IsNum (Num 1); IsNum (Num 2); IsNum (Num 4)] emptyBoard)
  = Done (Board (Row "X" "X" "O") (Row "X" "O" EMPTY) (Row "O" EMPTY EMPTY), Closed) /\
  forall r c,
    cellAt (Board (Row "X" "X" "O") (Row "X" "O" EMPTY) (Row "O" EMPTY EMPTY)) r c
    = cellAt emptyBoard r c
    \/ (cellAt emptyBoard r c = Some EMPTY
        /\ (cellAt (Board (Row "X" "X" "O") (Row "X" "O" EMPTY) (Row "O" EMPTY EMPTY)) r c
            = Some "X"%string
            \/ cellAt (Board (Row "X" "X" "O") (Row "X" "O" EMPTY) (Row "O" EMPTY EMPTY)) r c
               = Some "O"%string)).
Proof.
  assert (H : snd (playGame [IsNum (Num 1); IsNum (Num 2); IsNum (Num 4)] emptyBoard)
              = Done (Board (Row "X" "X" "O") (Row "X" "O" EMPTY) (Row "O" EMPTY EMPTY),
                      Closed)) by (vm_compute; reflexivity).
  split; [exact H|].
  exact (playGame_only_fills_empty_cells _ _ _ _ H).
Defined.

(** * The two programs have the same engine *)

Section Renaming.

Variable f : string -> string.
Hypothesis f_injective : forall s t, f s = f t -> s = t.
Hypothesis f_empty : f EMPTY = EMPTY.

Lemma eqb_rename (s t : string) : String.eqb (f s) (f t) = String.eqb s t.
Proof.
  destruct (String.eqb s t) eqn:E.
  - apply String.eqb_eq in E. subst. apply String.eqb_refl.
  - apply String.eqb_neq. apply String.eqb_neq in E. intros H. apply E.
    now apply f_injective.
Qed.

Lemma cellAt_rename (b : board) (r c : Z) :
  cellAt (rename f b) r c = option_map f (cellAt b r c).
Proof.
  unfold cellAt, rowAt, colAt.
  destruct r as [|[?|[?|?|]|]|?]; try reflexivity;
    destruct c as [|[?|[?|?|]|]|?]; reflexivity.
Qed.

Lemma cellIs_rename (b : board) (r c : Z) (s : string) :
  cellIs (rename f b) r c (f s) = cellIs b r c s.
Proof.
  unfold cellIs. rewrite cellAt_rename.
  destruct (cellAt b r c); simpl; [apply eqb_rename|reflexivity].
Qed.

Lemma cellIs_rename_empty (b : board) (r c : Z) :
  cellIs (rename f b) r c EMPTY = cellIs b r c EMPTY.
Proof. rewrite <- f_empty at 1. apply cellIs_rename. Qed.

Lemma checkWinner_rename (b : board) (player : string) :
  checkWinner (rename f b) (f player) = checkWinner b player.
Proof.
  unfold checkWinner, indices. cbn [for_return].
  now rewrite !cellIs_rename.
Qed.

Lemma isBoardFull_rename (b : board) :
  isBoardFull (rename f b) = isBoardFull b.
Proof.
  unfold isBoardFull, indices. cbn [for_return].
  now rewrite !cellIs_rename_empty.
Qed.

Lemma getAvailableMoves_rename (b : board) :
  getAvailableMoves (rename f b) = getAvailableMoves b.
Proof.
  unfold getAvailableMoves, indices. cbn [fold_left].
  now rewrite !cellIs_rename_empty.
Qed.

Lemma setCell_rename (b : board) (r c : Z) (v : string) :
  setCell (rename f b) r c (f v) = renameBoard f (setCell b r c v).
Proof.
  unfold setCell, rowAt, update, setCol.
  destruct r as [|[?|[?|?|]|]|?]; try reflexivity;
    destruct c as [|[?|[?|?|]|]|?]; reflexivity.
Qed.

Lemma setCell_rename_empty (b : board) (r c : Z) :
  setCell (rename f b) r c EMPTY = renameBoard f (setCell b r c EMPTY).
Proof. rewrite <- f_empty at 1. apply setCell_rename. Qed.

Lemma explore_rename (mark : string) (best : number -> number -> number)
    (recur recur' : board -> outcome (number * board))
    (moves : list move) (b : board) (acc : number) :
  (forall b1, recur' (rename f b1) = renameResult f (recur b1)) ->
  explore (f mark) best recur' moves (rename f b) acc
  = renameResult f (explore mark best recur moves b acc).
Proof.
  intros Hrec. revert b acc.
  induction moves as [|m rest IH]; intros b acc; simpl; [reflexivity|].
  rewrite setCell_rename.
  destruct (setCell b (i m) (j m) mark) as [b1| |]; simpl; try reflexivity.
  rewrite Hrec.
  destruct (recur b1) as [[s b2]| |]; simpl; try reflexivity.
  rewrite setCell_rename_empty.
  destruct (setCell b2 (i m) (j m) EMPTY) as [b3| |]; simpl; try reflexivity.
  apply IH.
Qed.

Lemma choose_rename (mark : string)
    (recur recur' : board -> outcome (number * board))
    (moves : list move) (b : board) (bm : move) (bs : number) :
  (forall b1, recur' (rename f b1) = renameResult f (recur b1)) ->
  choose (f mark) recur' moves (rename f b) bm bs
  = match choose mark recur moves b bm bs with
    | Done (m, s, b') => Done (m, s, rename f b')
    | TypeError => TypeError
    | OutOfFuel => OutOfFuel
    end.
Proof.
  intros Hrec. revert b bm bs.
  induction moves as [|m rest IH]; intros b bm bs; simpl; [reflexivity|].
  rewrite setCell_rename.
  destruct (setCell b (i m) (j m) mark) as [b1| |]; simpl; try reflexivity.
  rewrite Hrec.
  destruct (recur b1) as [[s b2]| |]; simpl; try reflexivity.
  rewrite setCell_rename_empty.
  destruct (setCell b2 (i m) (j m) EMPTY) as [b3| |]; simpl; try reflexivity.
  destruct (number_gtb s bs); apply IH.
Qed.

Lemma minimax_fuel_rename (maxMark minMark : string) (fuel : nat) :
  forall b d r,
    minimax_fuel (f maxMark) (f minMark) fuel (rename f b) d r
    = renameResult f (minimax_fuel maxMark minMark fuel b d r).
Proof.
  induction fuel as [|fuel IH]; intros b d r; [reflexivity|].
  simpl. unfold minimax_body.
  rewrite !checkWinner_rename, isBoardFull_rename, getAvailableMoves_rename.
  destruct (checkWinner b maxMark); [reflexivity|].
  destruct (checkWinner b minMark); [reflexivity|].
  destruct (isBoardFull b); [reflexivity|].
  destruct r; apply explore_rename; intros b1; apply IH.
Qed.

Lemma minimax_rename (maxMark minMark : string) (b : board) (d : Z) (r : bool) :
  minimax (f maxMark) (f minMark) (rename f b) d r
  = renameResult f (minimax maxMark minMark b d r).
Proof. apply minimax_fuel_rename. Qed.

Lemma makeComputerMove_rename (maxMark minMark : string) (b : board) :
  makeComputerMove (f maxMark) (f minMark) (rename f b)
  = renameBoard f (makeComputerMove maxMark minMark b)
  /\ bestMove (f maxMark) (f minMark) (rename f b) = bestMove maxMark minMark b.
Proof.
  unfold makeComputerMove, bestMove, selectMove.
  rewrite getAvailableMoves_rename.
  rewrite (choose_rename maxMark (fun b' => minimax maxMark minMark b' 0 false));
    [|intros b1; apply minimax_rename].
  destruct (choose maxMark _ (getAvailableMoves b) b sentinel NegInfinity)
    as [[[m s] b']| |]; simpl; auto.
  split; [apply setCell_rename|reflexivity].
Qed.

End Renaming.

(** * The page of the browser program *)

Lemma toBrowser_involutive (s : string) : toBrowser (toBrowser s) = s.
Proof.
  unfold toBrowser.
  destruct (String.eqb s Console.computer) eqn:E1;
    [apply String.eqb_eq in E1; subst; reflexivity|].
  destruct (String.eqb s Console.human) eqn:E2;
    [apply String.eqb_eq in E2; subst; reflexivity|].
  destruct (String.eqb s Browser.computer) eqn:E3;
    [apply String.eqb_eq in E3; subst; reflexivity|].
  destruct (String.eqb s Browser.human) eqn:E4;
    [apply String.eqb_eq in E4; subst; reflexivity|].
  now rewrite E1, E2, E3, E4.
Qed.

Lemma toBrowser_injective (s t : string) : toBrowser s = toBrowser t -> s = t.
Proof.
  intros H. rewrite <- (toBrowser_involutive s), <- (toBrowser_involutive t).
  now rewrite H.
Qed.

(** X11: the engine of the browser program is the engine of the console
    program with the marks renamed: on a board whose O and X are replaced
    by the two emoji, [minimax] returns the same score and
    [makeComputerMove] selects the same coordinate and leaves the renamed
    board, whatever other strings the cells hold. *)
Theorem engines_agree (b : board) (depth : Z) (isMaximizing : bool) :
  Browser.minimax (rename toBrowser b) depth isMaximizing
  = renameResult toBrowser (Console.minimax b depth isMaximizing) /\
  Browser.bestMove (rename toBrowser b) = Console.bestMove b /\
  Browser.makeComputerMove (rename toBrowser b)
  = renameBoard toBrowser (Console.makeComputerMove b).
Proof.
  split.
  - apply (minimax_rename toBrowser toBrowser_injective eq_refl
             Console.computer Console.human).
  - destruct (makeComputerMove_rename toBrowser toBrowser_injective eq_refl
                Console.computer Console.human b) as [Hmove Hbest].
    split; [exact Hbest|exact Hmove].
Qed.

(** ** A click is a turn of the console game *)

Lemma rename_place (f : string -> string) (b : board) (m : move) (v : string) :
  rename f (place b m v) = place (rename f b) m (f v).
Proof.
  destruct m as [r c]. unfold place, update, setCol; simpl.
  destruct r as [|[?|[?|?|]|]|?]; try reflexivity;
    destruct c as [|[?|[?|?|]|]|?]; reflexivity.
Qed.

Lemma toBrowser_empty (s : string) : toBrowser s = EMPTY <-> s = EMPTY.
Proof.
  split; [|intros ->; reflexivity].
  intros H. apply toBrowser_injective. exact H.
Qed.

Lemma emptyAt_rename (b : board) (m : move) :
  emptyAt (rename toBrowser b) m <-> emptyAt b m.
Proof.
  unfold emptyAt. rewrite (cellAt_rename toBrowser).
  destruct (cellAt b (i m) (j m)) as [s|]; simpl; [|split; discriminate].
  split; intros H; injection H as H.
  - apply (proj1 (toBrowser_empty s)) in H. now subst.
  - subst. reflexivity.
Qed.

Lemma checkWinner_browser (b : board) :
  checkWinner (rename toBrowser b) Browser.human = checkWinner b "X" /\
  checkWinner (rename toBrowser b) Browser.computer = checkWinner b "O".
Proof.
  split.
  - apply (checkWinner_rename toBrowser toBrowser_injective b "X").
  - apply (checkWinner_rename toBrowser toBrowser_injective b "O").
Qed.

Lemma isBoardFull_browser (b : board) :
  isBoardFull (rename toBrowser b) = isBoardFull b.
Proof. apply (isBoardFull_rename toBrowser toBrowser_injective eq_refl). Qed.

Lemma handleCellClick_at (p : page) (m : move) :
  inGrid m ->
  handleCellClick p (i m) (j m)
  = match cellAt (pageBoard p) (i m) (j m) with
    | Some EmptyString =>
        let b1 := place (pageBoard p) m Browser.human in
        let p1 := Page b1 (place (shown p) m Browser.human)
                    (message p) (listening p) in
        if checkWinner b1 Browser.human then
          Done (disableBoard (setMessage p1 "Player wins!"))
        else if isBoardFull b1 then
          Done (disableBoard (setMessage p1 "It's a tie!"))
        else
          b2 <- Browser.makeComputerMove b1 ;;
          let p2 := updateBoardDisplay
                      (Page b2 (shown p1) (message p1) (listening p1)) in
          if checkWinner b2 Browser.computer then
            Done (disableBoard (setMessage p2 "Computer wins!"))
          else if isBoardFull b2 then
            Done (disableBoard (setMessage p2 "It's a tie!"))
          else Done p2
    | _ => Done p
    end.
Proof.
  intros Hm. apply inGrid_allCells in Hm. unfold allCells in Hm; simpl in Hm.
  repeat (destruct Hm as [<-|Hm]; [reflexivity|]). destruct Hm.
Qed.

Lemma handleCellClick_turn (p : page) (b : board) (m : move)
    (log : list event) (b' : board) (e : ending) :
  pageBoard p = rename toBrowser b -> shown p = pageBoard p ->
  inGrid m -> turn b m log b' e ->
  handleCellClick p (i m) (j m) = Done (pageAfter p log b' e).
Proof.
  intros Hboard Hshown Hm Hturn.
  rewrite (handleCellClick_at p m Hm), Hshown, Hboard.
  assert (Hcell : forall s, cellAt b (i m) (j m) = Some s ->
            cellAt (rename toBrowser b) (i m) (j m) = Some (toBrowser s))
    by (intros s Hs; now rewrite (cellAt_rename toBrowser), Hs).
  assert (Hx : forall b1, checkWinner (rename toBrowser b1) Browser.human
                          = checkWinner b1 "X") by (intros; apply checkWinner_browser).
  assert (Ho : forall b1, checkWinner (rename toBrowser b1) Browser.computer
                          = checkWinner b1 "O") by (intros; apply checkWinner_browser).
  assert (Hmove : forall b1 b2, Console.makeComputerMove b1 = Done b2 ->
            Browser.makeComputerMove (rename toBrowser b1) = Done (rename toBrowser b2)).
  { intros b1 b2 H. destruct (engines_agree b1 0 true) as (_ & _ & ->).
    now rewrite H. }
  destruct Hturn as [Hocc | He Hw | He Hw Hf | m' He Hw Hm' Hmv Hwo
                   | m' He Hw Hm' Hmv Hwo Hf | m' He Hw Hm' Hmv Hwo Hf].
  - (* the cell is taken *)
    destruct p as [pb ps pm pl]; simpl in *. subst pb ps.
    unfold pageAfter; simpl.
    destruct (cellAt b (i m) (j m)) as [s|] eqn:E.
    + rewrite (Hcell s eq_refl).
      destruct (toBrowser s) as [|ch t] eqn:Es; [|reflexivity].
      exfalso. apply (proj1 (toBrowser_empty s)) in Es. subst s. now apply Hocc.
    + rewrite (cellAt_rename toBrowser), E. reflexivity.
  - rewrite (Hcell EMPTY He). cbv zeta.
    change Browser.human with (toBrowser "X").
    rewrite <- rename_place, Hx, Hw. reflexivity.
  - rewrite (Hcell EMPTY He). cbv zeta.
    change Browser.human with (toBrowser "X").
    rewrite <- rename_place, Hx, Hw, isBoardFull_browser, Hf. reflexivity.
  - rewrite (Hcell EMPTY He). cbv zeta.
    change Browser.human with (toBrowser "X").
    rewrite <- rename_place, Hx, Hw, isBoardFull_browser.
    assert (Hfull : isBoardFull (place b m "X") = false).
    { apply isBoardFull_false. intros Hnil.
      apply getAvailableMoves_In in Hm'. rewrite Hnil in Hm'. destruct Hm'. }
    rewrite Hfull, (Hmove _ _ Hmv). simpl. rewrite Ho, Hwo. reflexivity.
  - rewrite (Hcell EMPTY He). cbv zeta.
    change Browser.human with (toBrowser "X").
    rewrite <- rename_place, Hx, Hw, isBoardFull_browser.
    assert (Hfull : isBoardFull (place b m "X") = false).
    { apply isBoardFull_false. intros Hnil.
      apply getAvailableMoves_In in Hm'. rewrite Hnil in Hm'. destruct Hm'. }
    rewrite Hfull, (Hmove _ _ Hmv). simpl.
    rewrite Ho, Hwo, isBoardFull_browser, Hf. reflexivity.
  - rewrite (Hcell EMPTY He). cbv zeta.
    change Browser.human with (toBrowser "X").
    rewrite <- rename_place, Hx, Hw, isBoardFull_browser.
    assert (Hfull : isBoardFull (place b m "X") = false).
    { apply isBoardFull_false. intros Hnil.
      apply getAvailableMoves_In in Hm'. rewrite Hnil in Hm'. destruct Hm'. }
    rewrite Hfull, (Hmove _ _ Hmv). simpl.
    rewrite Ho, Hwo, isBoardFull_browser, Hf. reflexivity.
Qed.

(** ** Sessions on the page *)

Lemma rename_emptyBoard : rename toBrowser emptyBoard = emptyBoard.
Proof. reflexivity. Qed.

Lemma pageInv_fresh (text msg : string) :
  msg = text \/ msg = EMPTY ->
  pageInv text (Page emptyBoard emptyBoard msg true).
Proof.
  intros Hmsg. split; [reflexivity|]. exists emptyBoard.
  split; [reflexivity|]. split; [reflexivity|]. split.
  - intros _. split; [reflexivity|]. split; [reflexivity|].
    split; [exists 5%nat; apply unbeaten_from_the_start|exact Hmsg].
  - discriminate.
Qed.

Lemma cellOf_position (m : move) :
  inGrid m ->
  In (3 * i m + j m + 1) positions /\ cellOf (3 * i m + j m + 1) = m.
Proof.
  intros Hm. apply inGrid_allCells in Hm. unfold allCells in Hm; simpl in Hm.
  repeat (destruct Hm as [<-|Hm]; [split; [simpl; tauto|reflexivity]|]).
  destruct Hm.
Qed.

Lemma handleCellClick_outside (p : page) (r c : Z) :
  ~ inGrid (Move r c) ->
  handleCellClick p r c = TypeError \/ handleCellClick p r c = Done p.
Proof.
  intros Hout. unfold handleCellClick, rowAt, colAt.
  destruct r as [|[?|[?|?|]|]|?]; auto;
    destruct c as [|[?|[?|?|]|]|?]; auto;
    exfalso; apply Hout; unfold inGrid; simpl; lia.
Qed.

Lemma inGrid_dec (m : move) : {inGrid m} + {~ inGrid m}.
Proof.
  unfold inGrid.
  destruct (Z_le_dec 0 (i m)), (Z_le_dec (i m) 2),
           (Z_le_dec 0 (j m)), (Z_le_dec (j m) 2);
    solve [left; lia | right; lia].
Qed.

Lemma pageInv_turn (text : string) (p : page) (b : board) (m : move)
    (log : list event) (b' : board) (e : ending) (fuel : nat) :
  listening p = true ->
  (message p = text \/ message p = EMPTY) ->
  checkWinner b "X" = false -> checkWinner b "O" = false ->
  isBoardFull b = false ->
  unbeatenFrom fuel b = true ->
  turn b m log b' e ->
  neverPlayerWins log = true ->
  (e = Waiting -> b' = b \/ exists fuel', unbeatenFrom fuel' b' = true) ->
  pageInv text (pageAfter p log b' e).
Proof.
  intros Hlisten Hmsg Hx Ho Hfull Hsafe Hturn Hlog Hnext.
  split; [reflexivity|]. exists b'. split; [reflexivity|].
  destruct Hturn as [Hocc | He Hw | He Hw Hf | m' He Hw Hm' Hmv Hwo
                   | m' He Hw Hm' Hmv Hwo Hf | m' He Hw Hm' Hmv Hwo Hf];
    simpl.
  - split; [exact Hx|]. split; [|congruence].
    intros _. split; [exact Ho|]. split; [exact Hfull|]. split; [eauto|exact Hmsg].
  - discriminate Hlog.
  - split; [exact Hw|]. split; [discriminate|]. intros _. right.
    split; [reflexivity|]. split; [exact Hf|].
    apply no_line_after_place; [exact He|discriminate|exact Ho].
  - assert (Hx2 : checkWinner (place (place b m "X") m' "O") "X" = false)
      by (apply no_line_after_place; [exact Hm'|discriminate|exact Hw]).
    split; [exact Hx2|]. split; [discriminate|]. intros _. left. auto.
  - assert (Hx2 : checkWinner (place (place b m "X") m' "O") "X" = false)
      by (apply no_line_after_place; [exact Hm'|discriminate|exact Hw]).
    split; [exact Hx2|]. split; [discriminate|]. intros _. right. auto.
  - assert (Hx2 : checkWinner (place (place b m "X") m' "O") "X" = false)
      by (apply no_line_after_place; [exact Hm'|discriminate|exact Hw]).
    split; [exact Hx2|]. split; [|congruence].
    intros _. split; [exact Hwo|]. split; [exact Hf|]. split; [|exact Hmsg].
    destruct (Hnext eq_refl) as [Hsame|Hfuel]; [|exact Hfuel].
    rewrite Hsame. eauto.
Qed.

Lemma pageInv_click (text : string) (p p' : page) (r c : Z) :
  pageInv text p -> listening p = true ->
  handleCellClick p r c = Done p' -> pageInv text p'.
Proof.
  intros Hinv Hlisten Hclick.
  destruct (inGrid_dec (Move r c)) as [Hin|Hout].
  - destruct Hinv as [Hshown (b & Hboard & Hx & Hon & _)].
    destruct (Hon Hlisten) as (Ho & Hfull & [fuel Hsafe] & Hmsg).
    destruct (cellOf_position (Move r c) Hin) as [Hz Hcell]. simpl in Hz, Hcell.
    destruct (oneAnswer_turn b _ Hz) as (log & b' & e & Hone & Hturn).
    rewrite Hcell in Hturn.
    pose proof (handleCellClick_turn p b (Move r c) log b' e Hboard Hshown Hin Hturn)
      as Hpage.
    simpl in Hpage. rewrite Hpage in Hclick. injection Hclick as <-.
    destruct (unbeatenFrom_inv fuel b Hsafe) as (fuel' & -> & _ & Hall).
    specialize (Hall _ Hz). rewrite Hone in Hall.
    apply (pageInv_turn text p b (Move r c) log b' e (S fuel')); auto.
    + destruct e; [exact Hall|]. apply andb_true_iff in Hall. tauto.
    + intros ->. apply andb_true_iff in Hall. destruct Hall as [_ Hnext].
      destruct (board_eqb b' b) eqn:E.
      * left. now apply board_eqb_eq.
      * right. eauto.
  - destruct (handleCellClick_outside p r c Hout) as [H|H];
      rewrite H in Hclick; [discriminate|].
    injection Hclick as <-. exact Hinv.
Qed.

Lemma pageInv_session (text : string) (actions : list action) :
  forall p p', pageInv text p -> session actions p = Done p' -> pageInv text p'.
Proof.
  induction actions as [|a rest IH]; intros p p' Hinv Hrun; simpl in Hrun.
  - injection Hrun as <-. exact Hinv.
  - destruct a as [r c|]; simpl in Hrun.
    + destruct (listening p) eqn:Hlisten.
      * destruct (handleCellClick p r c) as [p1| |] eqn:Hclick; try discriminate.
        simpl in Hrun. apply (IH p1 p'); [|exact Hrun].
        now apply (pageInv_click text p p1 r c).
      * simpl in Hrun. now apply (IH p p').
    + apply (IH (resetGame p) p'); [|exact Hrun].
      apply (pageInv_fresh text EMPTY). now right.
Qed.

Lemma pageInv_loaded (text : string) : pageInv text (loadedPage text).
Proof. apply (pageInv_fresh text text). now left. Qed.

(** X12: a click on the cell in row [r] and column [c] of the page does
    what the answer [3 * r + c + 1] does in the console game on the same
    board with the console's marks: the page's board and cells become the
    console's board with the marks renamed, the message element takes the
    verdict the console prints, if any, and the listener is removed
    exactly when the console closes its input. *)
Theorem click_is_console_turn (p : page) (b : board) (r c : Z) :
  0 <= r <= 2 -> 0 <= c <= 2 ->
  pageBoard p = rename toBrowser b -> shown p = pageBoard p ->
  exists log b' e,
    oneAnswer b (IsNum (Num (3 * r + c + 1))) = (log, Done (b', e)) /\
    handleCellClick p r c
    = Done (Page (rename toBrowser b') (rename toBrowser b')
              (match log with
               | [Print verdict; CloseInput] => verdict
               | _ => message p
               end)
              (match e with
               | Closed => false
               | Waiting => listening p
               end)).
Proof.
  intros Hr Hc Hboard Hshown.
  assert (Hin : inGrid (Move r c)) by (split; assumption).
  destruct (cellOf_position (Move r c) Hin) as [Hz Hcell]. simpl in Hz, Hcell.
  destruct (oneAnswer_turn b _ Hz) as (log & b' & e & Hone & Hturn).
  rewrite Hcell in Hturn.
  exists log, b', e. split; [exact Hone|].
  exact (handleCellClick_turn p b (Move r c) log b' e Hboard Hshown Hin Hturn).
Qed.

Lemma click_is_console_turn_witness :
  exists log b' e,
    oneAnswer rowOpen (IsNum (Num (3 * 1 + 2 + 1))) = (log, Done (b', e)) /\
    handleCellClick
      (Page (rename toBrowser rowOpen) (rename toBrowser rowOpen) EMPTY true) 1 2
    = Done (Page (rename toBrowser b') (rename toBrowser b')
              (match log with
               | [Print verdict; CloseInput] => verdict
               | _ => EMPTY
               end)
              (match e with
               | Closed => false
               | Waiting => true
               end)).
Proof.
  apply (click_is_console_turn
           (Page (rename toBrowser rowOpen) (rename toBrowser rowOpen) EMPTY true)
           rowOpen 1 2); [lia|lia|reflexivity|reflexivity].
Defined.

Lemma session_example :
  session [Click 1 1; Click 1 1; Click 0 1] (loadedPage EMPTY)
  = Done (Page (Board (Row "🚀" "🌟" EMPTY) (Row EMPTY "🌟" EMPTY) (Row EMPTY "🚀" EMPTY))
               (Board (Row "🚀" "🌟" EMPTY) (Row EMPTY "🌟" EMPTY) (Row EMPTY "🚀" EMPTY))
               EMPTY true).
Proof. vm_compute. reflexivity. Qed.

(** X13: at every moment of a session on the loaded page, the text of
    the nine cells is the content of the board, and [handleCellClick] is
    registered on the cells exactly while neither mark has a line and the
    board is not full. *)
Theorem page_shows_board_and_listens_while_undecided
    (text : string) (actions : list action) (p : page) :
  session actions (loadedPage text) = Done p ->
  shown p = pageBoard p /\
  (listening p = true <->
   checkWinner (pageBoard p) Browser.human = false
   /\ checkWinner (pageBoard p) Browser.computer = false
   /\ isBoardFull (pageBoard p) = false).
Proof.
  intros Hrun.
  destruct (pageInv_session text actions _ p (pageInv_loaded text) Hrun)
    as [Hshown (b & Hboard & Hx & Hon & Hoff)].
  split; [exact Hshown|].
  rewrite Hboard, isBoardFull_browser.
  destruct (checkWinner_browser b) as [-> ->].
  split.
  - intros Hlisten. destruct (Hon Hlisten) as (Ho & Hfull & _). auto.
  - intros (_ & Ho & Hfull). destruct (listening p) eqn:E; [reflexivity|].
    destruct (Hoff eq_refl) as [[_ Hwin]|(_ & Hfull' & _)]; congruence.
Qed.

Lemma page_shows_board_and_listens_while_undecided_witness :
  exists p,
    session [Click 1 1; Click 1 1; Click 0 1] (loadedPage EMPTY) = Done p /\
    shown p = pageBoard p /\
    (listening p = true <->
     checkWinner (pageBoard p) Browser.human = false
     /\ checkWinner (pageBoard p) Browser.computer = false
     /\ isBoardFull (pageBoard p) = false).
Proof.
  eexists. split; [exact session_example|].
  exact (page_shows_board_and_listens_while_undecided EMPTY _ _ session_example).
Defined.

(** X14: in a session on the loaded page the human never gets a line,
    and the message element never comes to show [Player wins!]; once the
    listener is removed the message is [Computer wins!] with a line of
    the computer on the board, or [It's a tie!] with a full board and no
    line. *)
Theorem page_human_never_wins
    (text : string) (actions : list action) (p : page) :
  session actions (loadedPage text) = Done p ->
  checkWinner (pageBoard p) Browser.human = false /\
  (message p = "Player wins!"%string -> text = "Player wins!"%string) /\
  (listening p = false ->
   (message p = "Computer wins!"%string
    /\ checkWinner (pageBoard p) Browser.computer = true)
   \/ (message p = "It's a tie!"%string
       /\ isBoardFull (pageBoard p) = true
       /\ checkWinner (pageBoard p) Browser.computer = false)).
Proof.
  intros Hrun.
  destruct (pageInv_session text actions _ p (pageInv_loaded text) Hrun)
    as [_ (b & Hboard & Hx & Hon & Hoff)].
  rewrite Hboard, isBoardFull_browser.
  destruct (checkWinner_browser b) as [-> ->].
  split; [exact Hx|]. split; [|exact Hoff].
  intros Hmsg. destruct (listening p) eqn:E.
  - destruct (Hon eq_refl) as (_ & _ & _ & [Ht|Ht]).
    + congruence.
    + rewrite Ht in Hmsg. discriminate.
  - destruct (Hoff eq_refl) as [[Hm _]|[Hm _]]; rewrite Hm in Hmsg; discriminate.
Qed.

Lemma page_human_never_wins_witness :
  exists p,
    session [Click 1 1; Click 1 1; Click 0 1] (loadedPage EMPTY) = Done p /\
    checkWinner (pageBoard p) Browser.human = false /\
    (message p = "Player wins!"%string -> EMPTY = "Player wins!"%string) /\
    (listening p = false ->
     (message p = "Computer wins!"%string
      /\ checkWinner (pageBoard p) Browser.computer = true)
     \/ (message p = "It's a tie!"%string
         /\ isBoardFull (pageBoard p) = true
         /\ checkWinner (pageBoard p) Browser.computer = false)).
Proof.
  eexists. split; [exact session_example|].
  exact (page_human_never_wins EMPTY _ _ session_example).
Defined.
